(** * Task scheduler (automation/task-scheduler.py): a shallow embedding

    The development follows the Python module top to bottom:

    - [Py]: the fragment of Python values and string built-ins the module
      relies on ([int], [str.split], [str.lower], truthiness, [dict]
      subscripting);
    - [Recurrence]: recurrence rules and the next-run computation of the
      job table the module registers its jobs with;
    - [Clock], [Json]: executable instances of [datetime.isoformat] and of
      the [json] module, for running the model on concrete files;
    - section [TaskScheduler]: the class and the [__main__] block, written
      in a state-and-exception monad over the process state (the scheduler
      object, the file system, the job table, the clock, standard output),
      followed by their properties.

    Strings are 8-bit ([String.string]); code points above 255 and JSON
    floats are outside the model, and so are I/O errors of [open] and
    [KeyboardInterrupt].  Time is an integer number of seconds counted from
    a Monday, 00:00 local time. *)

From Stdlib Require Import ZArith Lia Bool List Ascii String DecimalString.
From stdpp Require Import base option list strings gmap.

Local Open Scope Z_scope.
Local Set Warnings "-register-all".

(** ** Python values and built-ins *)

Module Py.

(** The values [json.load] can produce (floats left out). A [dict] keeps its
    insertion order, so it is an association list with unique keys.  An
    integer has at most 4300 decimal digits: [json.load] raises on a longer
    literal, and neither [str] nor [json.dump] renders a longer integer. *)
Inductive pyval : Type :=
  | PNone
  | PBool (b : bool)
  | PInt (z : Z)
  | PStr (s : string)
  | PList (l : list pyval)
  | PDict (d : list (string * pyval)).

Inductive exn : Type :=
  | KeyError (key : string)
  | AttributeError (attr : string)
  | TypeError
  | ValueError
  | JSONDecodeError
  | ScheduleValueError
  | OSError (msg : string).

(** [bool(v)]: what an [if v:] tests. *)
Definition truthy (v : pyval) : bool :=
  match v with
  | PNone => false
  | PBool b => b
  | PInt z => negb (z =? 0)
  | PStr s => negb (String.eqb s EmptyString)
  | PList l => match l with [] => false | _ => true end
  | PDict d => match d with [] => false | _ => true end
  end.

(** *** dict operations on association lists *)

Fixpoint dict_get (k : string) (d : list (string * pyval)) : option pyval :=
  match d with
  | [] => None
  | (k', v) :: d' => if String.eqb k k' then Some v else dict_get k d'
  end.

(** [d[k] = v]: replace in place when the key exists, else add at the end. *)
Fixpoint dict_set (k : string) (v : pyval) (d : list (string * pyval))
  : list (string * pyval) :=
  match d with
  | [] => [(k, v)]
  | (k', v') :: d' =>
      if String.eqb k k' then (k', v) :: d' else (k', v') :: dict_set k v d'
  end.

(** [v[k]] for a dict [v] that has the key [k]. *)
Definition item (k : string) (v : pyval) : option pyval :=
  match v with
  | PDict d => dict_get k d
  | _ => None
  end.

(** *** characters *)

Definition code (c : ascii) : Z := Z.of_N (N_of_ascii c).

(** [str.isspace] on code points below 256. *)
Definition is_space (c : ascii) : bool :=
  let n := code c in
  ((9 <=? n) && (n <=? 13)) || ((28 <=? n) && (n <=? 32))
  || (n =? 133) || (n =? 160).

Definition digit_of (c : ascii) : option Z :=
  let n := code c in
  if (48 <=? n) && (n <=? 57) then Some (n - 48) else None.

(** [str.lower] on code points below 256: A-Z and the Latin-1 capitals. *)
Definition lower_char (c : ascii) : ascii :=
  let n := code c in
  if ((65 <=? n) && (n <=? 90))
     || ((192 <=? n) && (n <=? 222) && negb (n =? 215))
  then ascii_of_N (Z.to_N (n + 32)) else c.

Definition lower (s : string) : string :=
  string_of_list_ascii (List.map lower_char (list_ascii_of_string s)).

(** *** [str.split()] with no argument: split on runs of whitespace *)

Fixpoint split_ws (cur : list ascii) (s : list ascii) : list (list ascii) :=
  match s with
  | [] => match cur with [] => [] | _ => [List.rev cur] end
  | c :: s' =>
      if is_space c
      then match cur with
           | [] => split_ws [] s'
           | _ => List.rev cur :: split_ws [] s'
           end
      else split_ws (c :: cur) s'
  end.

Definition split (s : string) : list string :=
  List.map string_of_list_ascii (split_ws [] (list_ascii_of_string s)).

(** *** [int(s)] for a string, base 10 *)

(** The white space [int] skips at both ends of its argument: the C
    [isspace] set, and the two white-space code points between 128 and 255,
    which [int] turns into blanks first.  The separators U+001C to U+001F,
    which [str.isspace] and [str.split] count as white space, are not
    skipped. *)
Definition is_int_space (c : ascii) : bool :=
  let n := code c in
  ((9 <=? n) && (n <=? 13)) || (n =? 32) || (n =? 133) || (n =? 160).

Fixpoint lstrip (s : list ascii) : list ascii :=
  match s with
  | c :: s' => if is_int_space c then lstrip s' else s
  | [] => []
  end.

Definition strip (s : list ascii) : list ascii :=
  List.rev (lstrip (List.rev (lstrip s))).

(** Digits with single underscores between them; [sep] says that the
    previous position was not a digit (start of the literal or [_]). *)
Fixpoint digits_acc (acc : Z) (sep : bool) (s : list ascii) : option Z :=
  match s with
  | [] => if sep then None else Some acc
  | c :: s' =>
      if Ascii.eqb c "_"
      then if sep then None else digits_acc acc true s'
      else match digit_of c with
           | Some d => digits_acc (10 * acc + d) false s'
           | None => None
           end
  end.

(** [sys.get_int_max_str_digits()], at its default: a literal with more
    digits than this (sign, underscores and white space not counted) is
    refused with [ValueError]. *)
Definition int_max_str_digits : nat := 4300.

Definition count_digits (s : list ascii) : nat :=
  List.length
    (List.filter (λ c, match digit_of c with Some _ => true | None => false end) s).

Definition int_of_chars (s : list ascii) : option Z :=
  if (int_max_str_digits <? count_digits s)%nat then None
  else
    match strip s with
    | c :: s' =>
        if Ascii.eqb c "-" then Z.opp <$> digits_acc 0 true s'
        else if Ascii.eqb c "+" then digits_acc 0 true s'
        else digits_acc 0 true (c :: s')
    | [] => None
    end.

Definition int_of_string (s : string) : option Z :=
  int_of_chars (list_ascii_of_string s).

(** [int(v)]: [ValueError] for a string that is no literal, [TypeError] for
    [None] and containers. *)
Definition int (v : pyval) : exn + Z :=
  match v with
  | PInt z => inr z
  | PBool b => inr (if b then 1 else 0)
  | PStr s => match int_of_string s with Some z => inr z | None => inl ValueError end
  | PNone | PList _ | PDict _ => inl TypeError
  end.

End Py.

(** ** Recurrence rules and the job table's clockwork *)

Module Recurrence.

Inductive weekday : Type :=
  | Monday | Tuesday | Wednesday | Thursday | Friday | Saturday | Sunday.

Definition weekday_index (d : weekday) : Z :=
  match d with
  | Monday => 0 | Tuesday => 1 | Wednesday => 2 | Thursday => 3
  | Friday => 4 | Saturday => 5 | Sunday => 6
  end.

(** What a registered job recurs on: every [n] minutes, every hour at minute
    [m], every day at [h:m], every week on day [d] at [h:m]. *)
Inductive rule : Type :=
  | Interval (n : Z)
  | Hourly (m : Z)
  | Daily (h m : Z)
  | Weekly (d : weekday) (h m : Z).

Definition two_digits (a b : ascii) : option Z :=
  match Py.digit_of a, Py.digit_of b with
  | Some x, Some y => Some (10 * x + y)
  | _, _ => None
  end.

(** Modelled from the spec: the time-of-day check of [Job.at] for a daily or
    weekly job, which lives in the [schedule] package.  The spec's grammar is
    "HH:MM" on the 24-hour clock. *)
Definition at_day (s : string) : option (Z * Z) :=
  match list_ascii_of_string s with
  | [h1; h0; sep; m1; m0] =>
      if Ascii.eqb sep ":"
      then match two_digits h1 h0, two_digits m1 m0 with
           | Some h, Some m =>
               if (h <=? 23) && (m <=? 59) then Some (h, m) else None
           | _, _ => None
           end
      else None
  | _ => None
  end.

(** Modelled from the spec: the check of [Job.at] for an hourly job, called
    with ":" in front of the spec's "two-digit minute string". *)
Definition at_hour (s : string) : option Z :=
  match list_ascii_of_string s with
  | [sep; m1; m0] =>
      if Ascii.eqb sep ":"
      then match two_digits m1 m0 with
           | Some m => if m <=? 59 then Some m else None
           | None => None
           end
      else None
  | _ => None
  end.

(** Modelled from the spec: the attributes of a fresh [Job] that
    [getattr(schedule.every(), name)] finds for the weekly grammar, the seven
    weekday names. *)
Definition weekday_attr (name : string) : option weekday :=
  if String.eqb name "monday" then Some Monday
  else if String.eqb name "tuesday" then Some Tuesday
  else if String.eqb name "wednesday" then Some Wednesday
  else if String.eqb name "thursday" then Some Thursday
  else if String.eqb name "friday" then Some Friday
  else if String.eqb name "saturday" then Some Saturday
  else if String.eqb name "sunday" then Some Sunday
  else None.

(** The first instant strictly after [now] that is congruent to [offset]
    modulo [period]. *)
Definition next_occurrence (period offset now : Z) : Z :=
  now - (now - offset) mod period + period.

(** Modelled from the spec: the next-run computation of the [schedule]
    package (section 4.2): an interval job runs [n] minutes after the
    reference, the others at the soonest future occurrence of the named
    minute, time or weekday. *)
Definition next_fire (r : rule) (now : Z) : Z :=
  match r with
  | Interval n => now + 60 * n
  | Hourly m => next_occurrence 3600 (60 * m) now
  | Daily h m => next_occurrence 86400 (3600 * h + 60 * m) now
  | Weekly d h m =>
      next_occurrence 604800 (86400 * weekday_index d + 3600 * h + 60 * m) now
  end.

(** The grammar of section 4.2 of the spec, by schedule type: an integer
    string, a two-digit minute, "HH:MM", a weekday name and "HH:MM"
    separated by white space. *)
Definition grammar (schedule_type schedule_time : string) : option rule :=
  if String.eqb schedule_type "interval" then
    Interval <$> Py.int_of_string schedule_time
  else if String.eqb schedule_type "hourly" then
    Hourly <$> at_hour (String ":" schedule_time)
  else if String.eqb schedule_type "daily" then
    (λ hm, Daily hm.1 hm.2) <$> at_day schedule_time
  else if String.eqb schedule_type "weekly" then
    match Py.split schedule_time with
    | [day; time] =>
        d ← weekday_attr (Py.lower day);
        hm ← at_day time;
        Some (Weekly d hm.1 hm.2)
    | _ => None
    end
  else None.

(** A valid pair: it follows the grammar, and an interval is positive. *)
Definition valid_rule (schedule_type schedule_time : string) : option rule :=
  match grammar schedule_type schedule_time with
  | Some (Interval n) => if 0 <? n then Some (Interval n) else None
  | r => r
  end.

Definition is_schedule_type (schedule_type : string) : bool :=
  String.eqb schedule_type "interval" || String.eqb schedule_type "hourly"
  || String.eqb schedule_type "daily" || String.eqb schedule_type "weekly".

End Recurrence.

(** ** Calendar rendering of the clock *)

Module Clock.

Definition pad2 (n : Z) : string :=
  let d := NilZero.string_of_int (Z.to_int n) in
  if n <? 10 then String "0" d else d.

(** The civil date of day [z], counted from 0000-03-01. *)
Definition civil (z : Z) : Z * Z * Z :=
  let era := z / 146097 in
  let doe := z mod 146097 in
  let yoe := (doe - doe / 1460 + doe / 36524 - doe / 146096) / 365 in
  let doy := doe - (365 * yoe + yoe / 4 - yoe / 100) in
  let mp := (5 * doy + 2) / 153 in
  let d := doy - (153 * mp + 2) / 5 + 1 in
  let m := if mp <? 10 then mp + 3 else mp - 9 in
  let y := yoe + era * 400 + (if m <=? 2 then 1 else 0) in
  (y, m, d).

(** [datetime.isoformat()] at a whole second, the clock counting from
    Monday 2024-01-01T00:00:00. *)
Definition isoformat (t : Z) : string :=
  let '(y, m, d) := civil (t / 86400 + 739191) in
  let r := t mod 86400 in
  String.concat EmptyString
    [NilZero.string_of_int (Z.to_int y); "-"; pad2 m; "-"; pad2 d; "T";
     pad2 (r / 3600); ":"; pad2 (r mod 3600 / 60); ":"; pad2 (r mod 60)]%string.

End Clock.

(** ** A JSON codec

    [json.dump(v, f, indent=2)] and [json.load(f)] on the values of
    [Py.pyval], as executable functions.  The scheduler below is stated over
    an arbitrary codec; this one instantiates it on concrete files. *)

Module Json.
Import Py.

Definition dq : ascii := ascii_of_nat 34.
Definition bs : ascii := ascii_of_nat 92.
Definition nl : ascii := ascii_of_nat 10.

Definition hex_digit (n : Z) : ascii :=
  ascii_of_N (Z.to_N (if n <? 10 then 48 + n else 87 + n)).

(** [ensure_ascii] escaping of one character. *)
Definition escape (c : ascii) : list ascii :=
  let n := code c in
  if n =? 34 then [bs; dq]
  else if n =? 92 then [bs; bs]
  else if n =? 10 then [bs; "n"%char]
  else if n =? 13 then [bs; "r"%char]
  else if n =? 9 then [bs; "t"%char]
  else if n =? 8 then [bs; "b"%char]
  else if n =? 12 then [bs; "f"%char]
  else if (n <? 32) || (126 <? n)
  then [bs; "u"%char; "0"%char; "0"%char; hex_digit (n / 16); hex_digit (n mod 16)]
  else [c].

Definition dump_string (s : string) : list ascii :=
  dq :: List.concat (List.map escape (list_ascii_of_string s)) ++ [dq].

Definition dump_int (z : Z) : list ascii :=
  list_ascii_of_string (DecimalString.NilZero.string_of_int (Z.to_int z)).

Definition indent (depth : nat) : list ascii :=
  nl :: List.repeat " "%char (2 * depth).

(** Items one per line at [depth + 1], the closing bracket at [depth]. *)
Definition dump_block (opening closing : ascii) (depth : nat)
    (items : list (list ascii)) : list ascii :=
  match items with
  | [] => [opening; closing]
  | i :: rest =>
      opening :: indent (S depth) ++ i
        ++ List.concat (List.map (fun x => ","%char :: indent (S depth) ++ x) rest)
        ++ indent depth ++ [closing]
  end.

Fixpoint dump_value (depth : nat) (v : pyval) : list ascii :=
  match v with
  | PNone => list_ascii_of_string "null"
  | PBool true => list_ascii_of_string "true"
  | PBool false => list_ascii_of_string "false"
  | PInt z => dump_int z
  | PStr s => dump_string s
  | PList l => dump_block "["%char "]"%char depth (List.map (dump_value (S depth)) l)
  | PDict d =>
      dump_block "{"%char "}"%char depth
        (List.map (fun kv => dump_string (fst kv) ++ ":"%char :: " "%char
                               :: dump_value (S depth) (snd kv)) d)
  end.

Definition dumps (v : pyval) : string := string_of_list_ascii (dump_value 0 v).

(** *** decoding *)

Definition is_ws (c : ascii) : bool :=
  let n := code c in (n =? 32) || (n =? 10) || (n =? 13) || (n =? 9).

Fixpoint skip_ws (s : list ascii) : list ascii :=
  match s with
  | c :: s' => if is_ws c then skip_ws s' else s
  | [] => []
  end.

Definition hex_of (c : ascii) : option Z :=
  let n := code c in
  if (48 <=? n) && (n <=? 57) then Some (n - 48)
  else if (97 <=? n) && (n <=? 102) then Some (n - 87)
  else if (65 <=? n) && (n <=? 70) then Some (n - 55)
  else None.

Definition unescape (c : ascii) : option ascii :=
  let n := code c in
  if n =? 34 then Some dq
  else if n =? 92 then Some bs
  else if n =? 47 then Some "/"%char
  else if n =? 110 then Some nl
  else if n =? 114 then Some (ascii_of_nat 13)
  else if n =? 116 then Some (ascii_of_nat 9)
  else if n =? 98 then Some (ascii_of_nat 8)
  else if n =? 102 then Some (ascii_of_nat 12)
  else None.

(** The characters of a string literal after its opening quote. *)
Fixpoint load_chars (acc : list ascii) (s : list ascii)
  : option (string * list ascii) :=
  match s with
  | [] => None
  | c :: s' =>
      let n := code c in
      if n =? 34 then Some (string_of_list_ascii (List.rev acc), s')
      else if n <? 32 then None
      else if n =? 92 then
        match s' with
        | e :: s'' =>
            if Ascii.eqb e "u" then
              match s'' with
              | a :: b :: x :: y :: s3 =>
                  match hex_of a, hex_of b, hex_of x, hex_of y with
                  | Some 0, Some 0, Some h, Some l =>
                      load_chars (ascii_of_N (Z.to_N (16 * h + l)) :: acc) s3
                  | _, _, _, _ => None
                  end
              | _ => None
              end
            else match unescape e, s'' with
                 | Some u, _ => load_chars (u :: acc) s''
                 | None, _ => None
                 end
        | [] => None
        end
      else load_chars (c :: acc) s'
  end.

Fixpoint load_digits (acc : Z) (s : list ascii) : Z * list ascii :=
  match s with
  | c :: s' =>
      match digit_of c with
      | Some d => load_digits (10 * acc + d) s'
      | None => (acc, s)
      end
  | [] => (acc, [])
  end.

(** An integer literal: no leading zero, no fraction, no exponent, and no
    more digits than [int] takes. *)
Definition load_nat (s : list ascii) : option (Z * list ascii) :=
  match s with
  | c :: s' =>
      match digit_of c with
      | Some 0 =>
          match s' with
          | c' :: _ =>
              match digit_of c' with
              | Some _ => None
              | None => if (Ascii.eqb c' ".") || (Ascii.eqb c' "e") || (Ascii.eqb c' "E")
                        then None else Some (0, s')
              end
          | [] => Some (0, [])
          end
      | Some d =>
          let '(z, r) := load_digits d s' in
          if (int_max_str_digits <? List.length s - List.length r)%nat then None
          else
            match r with
            | c' :: _ => if (Ascii.eqb c' ".") || (Ascii.eqb c' "e") || (Ascii.eqb c' "E")
                         then None else Some (z, r)
            | [] => Some (z, r)
            end
      | None => None
      end
  | [] => None
  end.

Fixpoint strip_prefix (p s : list ascii) : option (list ascii) :=
  match p, s with
  | [], _ => Some s
  | a :: p', b :: s' => if Ascii.eqb a b then strip_prefix p' s' else None
  | _ :: _, [] => None
  end.

Definition load_keyword (s : list ascii) : option (pyval * list ascii) :=
  match strip_prefix (list_ascii_of_string "null") s with
  | Some r => Some (PNone, r)
  | None =>
      match strip_prefix (list_ascii_of_string "true") s with
      | Some r => Some (PBool true, r)
      | None =>
          match strip_prefix (list_ascii_of_string "false") s with
          | Some r => Some (PBool false, r)
          | None => None
          end
      end
  end.

(** What follows an item of an array or object: [inl r] after a comma,
    [inr r] after the closing bracket. *)
Definition load_sep (closing : ascii) (s : list ascii)
  : option (list ascii + list ascii) :=
  match skip_ws s with
  | c :: r =>
      if Ascii.eqb c "," then Some (inl r)
      else if Ascii.eqb c closing then Some (inr r)
      else None
  | [] => None
  end.

Fixpoint load_value (fuel : nat) (s : list ascii) : option (pyval * list ascii) :=
  match fuel with
  | O => None
  | S fuel' =>
      match skip_ws s with
      | c :: r =>
          let n := code c in
          if n =? 34 then
            '(str, r') ← load_chars [] r; Some (PStr str, r')
          else if n =? 91 then
            match skip_ws r with
            | c' :: r' =>
                if Ascii.eqb c' "]" then Some (PList [], r')
                else load_items fuel' [] r
            | [] => None
            end
          else if n =? 123 then
            match skip_ws r with
            | c' :: r' =>
                if Ascii.eqb c' "}" then Some (PDict [], r')
                else load_members fuel' [] r
            | [] => None
            end
          else if n =? 45 then
            '(z, r') ← load_nat r; Some (PInt (- z), r')
          else
            match load_nat (c :: r) with
            | Some (z, r') => Some (PInt z, r')
            | None => load_keyword (c :: r)
            end
      | [] => None
      end
  end
with load_items (fuel : nat) (acc : list pyval) (s : list ascii)
  : option (pyval * list ascii) :=
  match fuel with
  | O => None
  | S fuel' =>
      '(v, r) ← load_value fuel' s;
      sep ← load_sep "]" r;
      match sep with
      | inl r' => load_items fuel' (v :: acc) r'
      | inr r' => Some (PList (List.rev (v :: acc)), r')
      end
  end
with load_members (fuel : nat) (acc : list (string * pyval)) (s : list ascii)
  : option (pyval * list ascii) :=
  match fuel with
  | O => None
  | S fuel' =>
      match skip_ws s with
      | c :: r =>
          if Ascii.eqb c dq then
            '(k, r1) ← load_chars [] r;
            match skip_ws r1 with
            | c' :: r2 =>
                if Ascii.eqb c' ":" then
                  '(v, r3) ← load_value fuel' r2;
                  sep ← load_sep "}" r3;
                  match sep with
                  | inl r4 => load_members fuel' (dict_set k v acc) r4
                  | inr r4 => Some (PDict (dict_set k v acc), r4)
                  end
                else None
            | [] => None
            end
          else None
      | [] => None
      end
  end.

(** [None] stands for the exception [json.load] raises:
    [json.JSONDecodeError], or its parent [ValueError] for an integer
    literal of too many digits. *)
Definition loads (s : string) : option pyval :=
  let cs := list_ascii_of_string s in
  '(v, r) ← load_value (2 + List.length cs) cs;
  match skip_ws r with
  | [] => Some v
  | _ :: _ => None
  end.

End Json.

(** ** The process state and its monad *)

Import Py Recurrence.

(** One line of standard output per [print] of the module. *)
Inductive line : Type :=
  | LStarted
  | LScheduled (name : pyval)
  | LRunning (t : Z) (name : pyval)
  | LOutput (stdout : string)
  | LError (stderr : string)
  | LTaskError (name : pyval) (e : exn)
  | LCreated.

(** What [subprocess.run(..., shell=True, capture_output=True, text=True)]
    does: a [CompletedProcess], or an exception when the command cannot be
    started. *)
Inductive outcome : Type :=
  | Completed (stdout stderr : string) (returncode : Z)
  | Failed (e : exn).

(** One run of a command: its outcome, how long it took and the files it
    left behind. *)
Record execution : Type := {
  result : outcome;
  elapsed : N;
  files : gmap string string;
}.

(** An entry of the job table.  The closure [job] of [schedule_task] holds a
    reference to a dict that is an element of [self.tasks]; that list is only
    ever appended to, so the reference is the position [job_task] in it. *)
Record Job : Type := {
  job_task : nat;
  job_rule : rule;
  next_run : Z;
  last_run : option Z;
}.

(** The one [TaskScheduler] object of the process ([config_file], [tasks])
    and the world around it. *)
Record state : Type := {
  config_file : string;
  tasks : pyval;
  fs : gmap string string;
  jobs : list Job;
  clock : Z;
  out : list line;
}.

Definition set_config_file (p : string) (s : state) : state :=
  {| config_file := p; tasks := tasks s; fs := fs s; jobs := jobs s;
     clock := clock s; out := out s |}.
Definition set_tasks (v : pyval) (s : state) : state :=
  {| config_file := config_file s; tasks := v; fs := fs s; jobs := jobs s;
     clock := clock s; out := out s |}.
Definition set_fs (f : gmap string string) (s : state) : state :=
  {| config_file := config_file s; tasks := tasks s; fs := f; jobs := jobs s;
     clock := clock s; out := out s |}.
Definition set_jobs (js : list Job) (s : state) : state :=
  {| config_file := config_file s; tasks := tasks s; fs := fs s; jobs := js;
     clock := clock s; out := out s |}.
Definition set_clock (t : Z) (s : state) : state :=
  {| config_file := config_file s; tasks := tasks s; fs := fs s; jobs := jobs s;
     clock := t; out := out s |}.
Definition set_out (o : list line) (s : state) : state :=
  {| config_file := config_file s; tasks := tasks s; fs := fs s; jobs := jobs s;
     clock := clock s; out := o |}.

(** A computation returns a value or raises, and leaves a state either way. *)
Definition M (A : Type) : Type := state → (exn + A) * state.

#[global] Instance M_ret : MRet M := λ A x s, (inr x, s).
#[global] Instance M_bind : MBind M := λ A B f m s,
  match m s with
  | (inr x, s') => f x s'
  | (inl e, s') => (inl e, s')
  end.

Definition get : M state := λ s, (inr s, s).
Definition modify (f : state → state) : M unit := λ s, (inr tt, f s).
Definition raise {A} (e : exn) : M A := λ s, (inl e, s).
Definition lift {A} (r : exn + A) : M A := λ s, (r, s).

(** [try: body except Exception as e: handler e]. *)
Definition try_except {A} (body : M A) (handler : exn → M A) : M A := λ s,
  match body s with
  | (inl e, s') => handler e s'
  | (inr x, s') => (inr x, s')
  end.

Definition now : M Z := λ s, (inr (clock s), s).
Definition print (l : line) : M unit := modify (λ s, set_out (out s ++ [l]) s).
Definition sleep (d : Z) : M unit := modify (λ s, set_clock (clock s + d) s).

(** [d[k]] *)
Definition subscript (d : list (string * pyval)) (k : string) : M pyval :=
  match dict_get k d with
  | Some v => mret v
  | None => raise (KeyError k)
  end.

(** *** Files: [open(path, 'w')] truncates, then the text arrives in pieces *)

Inductive fs_op : Type :=
  | Truncate (path : string)
  | Append (path : string) (c : ascii).

Definition fs_step (op : fs_op) (f : gmap string string) : gmap string string :=
  match op with
  | Truncate p => <[p := EmptyString]> f
  | Append p c =>
      <[p := String.append (default EmptyString (f !! p)) (String c EmptyString)]> f
  end.

Fixpoint run_ops (ops : list fs_op) (f : gmap string string) : gmap string string :=
  match ops with
  | [] => f
  | op :: ops' => run_ops ops' (fs_step op f)
  end.

Definition write_ops (path text : string) : list fs_op :=
  Truncate path :: List.map (Append path) (list_ascii_of_string text).

(** The file system when the process dies after [k] steps of a write. *)
Definition crash_after (k : nat) (path text : string) (f : gmap string string)
  : gmap string string :=
  run_ops (take k (write_ops path text)) f.

Definition write_file (path text : string) : M unit :=
  modify (λ s, set_fs (run_ops (write_ops path text) (fs s)) s).

(** ** class TaskScheduler *)

Section TaskScheduler.

(** The platform: the [json] module, [datetime.isoformat] and the shell
    behind [subprocess.run], which sees the command, the time and the files. *)
Variable json_dumps : pyval → string.
Variable json_loads : string → option pyval.
Variable isoformat : Z → string.
Variable shell : pyval → Z → gmap string string → execution.

Definition load_tasks : M pyval :=
  s ← get;
  match fs s !! config_file s with
  | Some text =>
      match json_loads text with
      | Some v => mret v
      | None => raise JSONDecodeError
      end
  | None => mret (PList [])
  end.

Definition __init__ (config_file : string) : M unit :=
  modify (set_config_file config_file);;
  v ← load_tasks;
  modify (set_tasks v).

Definition save_tasks : M unit :=
  s ← get;
  write_file (config_file s) (json_dumps (tasks s)).

(** The dict a job closure refers to (see [Job]); the [TypeError] stands for
    a dangling reference, which no caller produces. *)
Definition the_task (i : nat) : M (list (string * pyval)) :=
  s ← get;
  match tasks s with
  | PList l =>
      match l !! i with
      | Some (PDict d) => mret d
      | _ => raise TypeError
      end
  | _ => raise TypeError
  end.

(** [task['last_run'] = v] through the closure's reference. *)
Definition set_last_run (i : nat) (v : pyval) : M unit :=
  d ← the_task i;
  modify (λ s,
    match tasks s with
    | PList l => set_tasks (PList (<[i := PDict (dict_set "last_run" v d)]> l)) s
    | _ => s
    end).

Definition subprocess_run (command : pyval) : M (string * string * Z) :=
  s ← get;
  let x := shell command (clock s) (fs s) in
  modify (λ s, set_fs (files x) (set_clock (clock s + Z.of_N (elapsed x)) s));;
  match result x with
  | Completed stdout stderr returncode => mret (stdout, stderr, returncode)
  | Failed e => raise e
  end.

(** The closure [job] of [schedule_task], for the task at position [i]. *)
Definition job (i : nat) : M unit :=
  task ← the_task i;
  t ← now;
  name ← subscript task "name";
  print (LRunning t name);;
  try_except
    (command ← subscript task "command";
     '(stdout, stderr, _) ← subprocess_run command;
     print (LOutput stdout);;
     (if truthy (PStr stderr) then print (LError stderr) else mret tt);;
     t' ← now;
     set_last_run i (PStr (isoformat t'));;
     save_tasks)
    (λ e,
     name ← subscript task "name";
     print (LTaskError name e)).

(** [... .do(job)]: the job enters the table with its first run time. *)
Definition every_do (i : nat) (r : rule) : M unit :=
  modify (λ s,
    set_jobs (jobs s ++ [{| job_task := i; job_rule := r;
                            next_run := next_fire r (clock s);
                            last_run := None |}]) s).

Definition eq_str (v : pyval) (s : string) : bool :=
  match v with
  | PStr s' => String.eqb s' s
  | _ => false
  end.

Definition dec (z : Z) : string := NilZero.string_of_int (Z.to_int z).

(** [.hour.at(f":{schedule_time}")].  [str()] of a list or dict starts with
    a bracket, which [at] refuses like any other malformed text. *)
Definition hour_at (schedule_time : pyval) : M Z :=
  let arg :=
    match schedule_time with
    | PStr s => Some s
    | PInt z => Some (dec z)
    | PBool b => Some (if b then "True" else "False")
    | PNone => Some "None"
    | PList _ | PDict _ => None
    end in
  match arg ≫= (λ s, at_hour (String ":" s)) with
  | Some m => mret m
  | None => raise ScheduleValueError
  end.

(** [.at(time)] of a daily or weekly job. *)
Definition day_at (time : pyval) : M (Z * Z) :=
  match time with
  | PStr s =>
      match at_day s with
      | Some hm => mret hm
      | None => raise ScheduleValueError
      end
  | _ => raise TypeError
  end.

(** The body of [schedule_task] below its closure, for the dict [task]
    that the reference [i] leads to. *)
Definition schedule_task_body (i : nat) (task : list (string * pyval)) : M unit :=
  schedule_type ← subscript task "schedule_type";
  schedule_time ← subscript task "schedule_time";
  if eq_str schedule_type "interval" then
    n ← lift (Py.int schedule_time);
    every_do i (Interval n)
  else if eq_str schedule_type "hourly" then
    m ← hour_at schedule_time;
    every_do i (Hourly m)
  else if eq_str schedule_type "daily" then
    '(h, m) ← day_at schedule_time;
    every_do i (Daily h m)
  else if eq_str schedule_type "weekly" then
    match schedule_time with
    | PStr s =>
        match split s with
        | [day; time_str] =>
            match weekday_attr (lower day) with
            | Some d =>
                '(h, m) ← day_at (PStr time_str);
                every_do i (Weekly d h m)
            | None => raise (AttributeError (lower day))
            end
        | _ => raise ValueError
        end
    | _ => raise (AttributeError "split")
    end
  else mret tt.

Definition schedule_task (i : nat) : M unit :=
  task ← the_task i;
  schedule_task_body i task.

Definition new_task (name command schedule_type schedule_time : string) : pyval :=
  PDict [("name", PStr name); ("command", PStr command);
         ("schedule_type", PStr schedule_type);
         ("schedule_time", PStr schedule_time);
         ("enabled", PBool true); ("last_run", PNone)].

Definition add_task (name command schedule_type schedule_time : string) : M unit :=
  s ← get;
  match tasks s with
  | PList l =>
      modify (set_tasks (PList (l ++ [new_task name command schedule_type schedule_time])));;
      save_tasks;;
      schedule_task (List.length l)
  | _ => raise (AttributeError "append")
  end.

(** *** The poll loop *)

(** Modelled from the spec: [schedule.run_pending()] of the [schedule]
    package (section 4.3).  The jobs whose next run time has passed are run
    in the order they were registered; after its function returns, a job is
    given its last and next run times.  An exception of the job function is
    not caught here. *)
Definition should_run (t : Z) (j : Job) : bool := next_run j <=? t.

Definition due_jobs (s : state) : list nat :=
  List.filter
    (λ k, match jobs s !! k with Some j => should_run (clock s) j | None => false end)
    (seq 0 (List.length (jobs s))).

Definition rescheduled (j : Job) (t : Z) : Job :=
  {| job_task := job_task j; job_rule := job_rule j;
     next_run := next_fire (job_rule j) t; last_run := Some t |}.

Definition run_job (k : nat) : M unit :=
  s ← get;
  match jobs s !! k with
  | Some j =>
      job (job_task j);;
      t ← now;
      modify (λ s, set_jobs (<[k := rescheduled j t]> (jobs s)) s)
  | None => mret tt
  end.

Fixpoint run_jobs (ks : list nat) : M unit :=
  match ks with
  | [] => mret tt
  | k :: ks' => run_job k;; run_jobs ks'
  end.

Definition run_pending : M unit :=
  s ← get;
  run_jobs (due_jobs s).

(** [for task in tasks:] of [run], from position [i] on. *)
Fixpoint schedule_all (l : list pyval) (i : nat) : M unit :=
  match l with
  | [] => mret tt
  | task :: rest =>
      match task with
      | PDict d =>
          (if truthy (default (PBool true) (dict_get "enabled" d))
           then schedule_task i;;
                name ← subscript d "name";
                print (LScheduled name)
           else mret tt);;
          schedule_all rest (S i)
      | _ => raise (AttributeError "get")
      end
  end.

(** The first half of [run]: iterating a dict or a string yields strings,
    which have no [get]; the other values are not iterable. *)
Definition schedule_enabled : M unit :=
  print LStarted;;
  s ← get;
  match tasks s with
  | PList l => schedule_all l 0
  | PDict [] => mret tt
  | PDict (_ :: _) => raise (AttributeError "get")
  | PStr s => if truthy (PStr s) then raise (AttributeError "get") else mret tt
  | PNone | PBool _ | PInt _ => raise TypeError
  end.

(** [while True: schedule.run_pending(); time.sleep(1)], cut after [n]
    rounds. *)
Fixpoint poll (n : nat) : M unit :=
  match n with
  | O => mret tt
  | S n' => run_pending;; sleep 1;; poll n'
  end.

Definition run (n : nat) : M unit :=
  schedule_enabled;;
  poll n.

(** *** The script *)

Definition example (name command schedule_type schedule_time : string) : pyval :=
  PDict [("name", PStr name); ("command", PStr command);
         ("schedule_type", PStr schedule_type);
         ("schedule_time", PStr schedule_time)].

Definition EXAMPLE_TASKS : pyval :=
  PList [
    example "System Backup"
      "tar -czf ~/server/backups/backup_$(date +%Y%m%d).tar.gz ~/server/data"
      "daily" "02:00";
    example "Clear Temp Files" "rm -rf ~/server/temp/*" "daily" "03:00";
    example "Check Disk Space" "df -h ~/server" "interval" "60";
    example "Update Packages" "pkg update && pkg upgrade -y"
      "weekly" "sunday 04:00"
  ].

(** The [__main__] block, its poll loop cut after [n] rounds.  The
    scheduler is built before the example file is looked for; the
    [except KeyboardInterrupt] around [run] has nothing to catch here. *)
Definition main (n : nat) : M unit :=
  __init__ "tasks.json";;
  s ← get;
  (match fs s !! "tasks.json" with
   | None => write_file "tasks.json" (json_dumps EXAMPLE_TASKS);; print LCreated
   | Some _ => mret tt
   end);;
  run n.

(** *** The states the methods lead to *)

(** After [... .do(job)] for the task at [i]. *)
Definition registered (i : nat) (r : rule) (s : state) : state :=
  set_jobs (jobs s ++ [{| job_task := i; job_rule := r;
                          next_run := next_fire r (clock s);
                          last_run := None |}]) s.

(** After the first two statements of [add_task]. *)
Definition added (task : pyval) (l : list pyval) (s : state) : state :=
  set_fs (<[config_file s := json_dumps (PList (l ++ [task]))]> (fs s))
    (set_tasks (PList (l ++ [task])) s).

(** After the closure [job] has run for the task at [i], a dict [d] with
    the given name, in the list [l]. *)
Definition after_job (l : list pyval) (i : nat) (d : list (string * pyval))
    (name : pyval) (s : state) : state :=
  let s1 := set_out (out s ++ [LRunning (clock s) name]) s in
  match dict_get "command" d with
  | None => set_out (out s1 ++ [LTaskError name (KeyError "command")]) s1
  | Some command =>
      let x := shell command (clock s) (fs s) in
      let s2 := set_fs (files x) (set_clock (clock s + Z.of_N (elapsed x)) s1) in
      match result x with
      | Failed e => set_out (out s2 ++ [LTaskError name e]) s2
      | Completed stdout stderr _ =>
          let s3 := set_out (out s2 ++ [LOutput stdout]) s2 in
          let s4 := if truthy (PStr stderr)
                    then set_out (out s3 ++ [LError stderr]) s3 else s3 in
          let l' := <[i := PDict (dict_set "last_run"
                                    (PStr (isoformat (clock s4))) d)]> l in
          set_fs (<[config_file s := json_dumps (PList l')]> (fs s4))
            (set_tasks (PList l') s4)
      end
  end.

(** What one firing prints: the lines of the closure [job] for a task
    called [name] with the given command (if it has one), fired at time [t]
    on the files [f]. *)
Definition job_log (name : pyval) (command : option pyval) (t : Z)
    (f : gmap string string) : list line :=
  LRunning t name ::
  match command with
  | None => [LTaskError name (KeyError "command")]
  | Some c =>
      match result (shell c t f) with
      | Completed stdout stderr _ =>
          LOutput stdout :: (if truthy (PStr stderr) then [LError stderr] else [])
      | Failed e => [LTaskError name e]
      end
  end.

(** *** Well-formed job tables *)

Definition named (v : pyval) : bool :=
  match item "name" v with Some _ => true | None => false end.

(** [self.tasks[i]], when there is such an element. *)
Definition task_at (i : nat) (s : state) : option pyval :=
  match tasks s with
  | PList l => l !! i
  | _ => None
  end.

(** Every job of the table refers to a dict of the task list that has a
    name: what [run] leaves once its [for] loop is through, and what
    [add_task] keeps. *)
Definition jobs_ok (s : state) : bool :=
  forallb
    (λ j, match task_at (job_task j) s with Some v => named v | None => false end)
    (jobs s).

Definition refers_to_named (s : state) (j : Job) : Prop :=
  ∃ l d name, tasks s = PList l ∧ l !! job_task j = Some (PDict d)
              ∧ dict_get "name" d = Some name.

(** A computation that neither reads nor writes the task list. *)
Definition frames_tasks {A} (m : M A) : Prop :=
  ∀ s T, m (set_tasks T s) = (let '(r, s') := m s in (r, set_tasks T s')).

(** [m'] run on the task list [T] does what [m] does on the task list it
    finds, as long as the latter meets [P]. *)
Definition simulates {A} (T : pyval) (P : state → Prop) (m' m : M A) : Prop :=
  ∀ s, P s →
    m' (set_tasks T s) = (let '(r, s') := m s in (r, set_tasks T s'))
    ∧ P (m s).2.

(** [v'] is [v], or [v] with a missing enabled key filled in as true. *)
Definition enabled_made_explicit (v v' : pyval) : Prop :=
  v' = v
  ∨ ∃ d, v = PDict d ∧ dict_get "enabled" d = None
         ∧ v' = PDict (dict_set "enabled" (PBool true) d).

(** *** Concrete worlds, for the examples below *)

Definition fresh (f : gmap string string) : state :=
  {| config_file := "tasks.json"; tasks := PNone; fs := f; jobs := [];
     clock := 36000; out := [] |}.

(** A shell whose commands all print to stderr and exit with status 1
    after two seconds, leaving the files alone. *)
Definition failing_shell (command : pyval) (t : Z) (f : gmap string string)
  : execution :=
  {| result := Completed "" "boom" 1; elapsed := 2; files := f |}.

(** A machine on which no command can be started. *)
Definition no_shell (command : pyval) (t : Z) (f : gmap string string)
  : execution :=
  {| result := Failed (OSError "sh: not found"); elapsed := 0; files := f |}.

Definition disk_check : list (string * pyval) :=
  [("name", PStr "Check Disk Space"); ("command", PStr "df -h ~/server");
   ("schedule_type", PStr "interval"); ("schedule_time", PStr "60")].

(** A scheduler at 10:00 with one task, whose job is due. *)
Definition running : state :=
  {| config_file := "tasks.json"; tasks := PList [PDict disk_check]; fs := ∅;
     jobs := [{| job_task := 0; job_rule := Interval 60;
                 next_run := 36000; last_run := None |}];
     clock := 36000; out := [] |}.

(** A task without a name, and one without a command. *)
Definition nameless : list (string * pyval) :=
  [("command", PStr "true"); ("schedule_type", PStr "interval");
   ("schedule_time", PStr "5")].

Definition no_command : list (string * pyval) :=
  [("name", PStr "Ping"); ("schedule_type", PStr "interval");
   ("schedule_time", PStr "5")].

(** A scheduler whose only job is due and refers to the dict [d]. *)
Definition due_on (d : list (string * pyval)) : state :=
  {| config_file := "tasks.json"; tasks := PList [PDict d]; fs := ∅;
     jobs := [{| job_task := 0; job_rule := Interval 5;
                 next_run := 36000; last_run := None |}];
     clock := 36000; out := [] |}.

(** A scheduler at 10:00 whose only job is due at 10:01:40. *)
Definition waiting : state :=
  {| config_file := "tasks.json"; tasks := PList [PDict disk_check]; fs := ∅;
     jobs := [{| job_task := 0; job_rule := Interval 60;
                 next_run := 36100; last_run := None |}];
     clock := 36000; out := [] |}.

(** A task list with a disabled task between two enabled ones. *)
Definition mixed : state :=
  set_tasks
    (PList [PDict disk_check;
            PDict (dict_set "enabled" (PBool false) disk_check);
            PDict (dict_set "enabled" (PBool true) disk_check)])
    (fresh ∅).

(** *** Relations between task lists and job tables *)

(** [v'] is [v] up to the value of the last_run key. *)
Definition agree_off_last_run (v v' : pyval) : Prop :=
  v' = v
  ∨ ∃ d d', v = PDict d ∧ v' = PDict d'
            ∧ ∀ k, k ≠ "last_run" → dict_get k d' = dict_get k d.

(** [T'] is the task list [T] up to last_run values. *)
Definition same_tasks (T T' : pyval) : Prop :=
  T' = T
  ∨ ∃ l l', T = PList l ∧ T' = PList l' ∧ Forall2 agree_off_last_run l l'.

(** What the test [if task.get('enabled', True)] of [run] lets through. *)
Definition enabled_dict (v : pyval) : bool :=
  match v with
  | PDict d => truthy (default (PBool true) (dict_get "enabled" d))
  | _ => false
  end.

Definition refers_to_enabled (s : state) (j : Job) : Prop :=
  ∃ v, task_at (job_task j) s = Some v ∧ enabled_dict v = true.

(** ** Properties *)

(** *** Writing a file *)

Lemma append_empty (s : string) : String.append s EmptyString = s.
Proof.
  induction s as [|c s IH]; [done|].
  change (String c (String.append s EmptyString) = String c s). by rewrite IH.
Qed.

Lemma append_snoc (s : string) (c : ascii) (t : string) :
  String.append (String.append s (String c EmptyString)) t
  = String.append s (String c t).
Proof.
  induction s as [|c' s IH]; [done|].
  change (String c' (String.append (String.append s (String c EmptyString)) t)
          = String c' (String.append s (String c t))).
  by rewrite IH.
Qed.

Lemma run_appends (p : string) (cs : list ascii) (acc : string)
    (f : gmap string string) :
  run_ops (List.map (Append p) cs) (<[p := acc]> f)
  = <[p := String.append acc (string_of_list_ascii cs)]> f.
Proof.
  revert acc. induction cs as [|c cs IH]; intros acc; simpl.
  - by rewrite append_empty.
  - rewrite lookup_insert_eq, insert_insert_eq. simpl.
    by rewrite IH, append_snoc.
Qed.

Lemma crash_after_S (k : nat) (p text : string) (f : gmap string string) :
  crash_after (S k) p text f
  = <[p := string_of_list_ascii (take k (list_ascii_of_string text))]> f.
Proof.
  unfold crash_after, write_ops. simpl.
  rewrite <- fmap_take. apply (run_appends p _ EmptyString).
Qed.

Lemma run_write_ops (p text : string) (f : gmap string string) :
  run_ops (write_ops p text) f = <[p := text]> f.
Proof.
  unfold write_ops. simpl. rewrite (run_appends p _ EmptyString). simpl.
  by rewrite string_of_list_ascii_of_string.
Qed.

#[local] Arguments run_ops : simpl never.

Lemma write_file_eq (p text : string) (s : state) :
  write_file p text s = (inr tt, set_fs (<[p := text]> (fs s)) s).
Proof. unfold write_file, modify. by rewrite run_write_ops. Qed.

Lemma save_tasks_eq (s : state) :
  save_tasks s
  = (inr tt, set_fs (<[config_file s := json_dumps (tasks s)]> (fs s)) s).
Proof. unfold save_tasks, mbind, M_bind, get. apply write_file_eq. Qed.

(** *** Loading *)

(** C2. [load_tasks] returns the empty list when the storage file does not
    exist.  When the file exists and its text is not JSON, [load_tasks]
    raises [JSONDecodeError]; nothing catches it in [__init__] or in the
    [__main__] block, so the program stops there: the task list is not
    reset, the file is left as it was, no job is registered and nothing is
    printed. *)
Theorem corrupt_storage_aborts_startup
    (s : state) (path text : string) (n : nat) :
  json_loads text = None →
  let absent := set_fs (delete (config_file s) (fs s)) s in
  let corrupt p := set_fs (<[p := text]> (fs s)) s in
  load_tasks absent = (inr (PList []), absent)
  ∧ load_tasks (corrupt (config_file s))
    = (inl JSONDecodeError, corrupt (config_file s))
  ∧ __init__ path (corrupt path)
    = (inl JSONDecodeError, set_config_file path (corrupt path))
  ∧ main n (corrupt "tasks.json")
    = (inl JSONDecodeError, set_config_file "tasks.json" (corrupt "tasks.json")).
Proof.
  intros Hbad absent corrupt.
  assert (Hload : ∀ p, load_tasks (set_config_file p (corrupt p))
                       = (inl JSONDecodeError, set_config_file p (corrupt p))).
  { intros p. unfold load_tasks, mbind, M_bind, get, raise. simpl.
    by rewrite lookup_insert_eq, Hbad. }
  assert (Hinit : ∀ p, __init__ p (corrupt p)
                       = (inl JSONDecodeError, set_config_file p (corrupt p))).
  { intros p. unfold __init__, mbind, M_bind, modify.
    by rewrite Hload. }
  repeat split.
  - unfold load_tasks, mbind, M_bind, get, mret, M_ret. simpl.
    by rewrite lookup_delete_eq.
  - unfold load_tasks, mbind, M_bind, get, raise. simpl.
    by rewrite lookup_insert_eq, Hbad.
  - apply Hinit.
  - unfold main, mbind, M_bind. by rewrite Hinit.
Qed.

(** *** Registering a task *)

Lemma next_occurrence_after (period offset t : Z) :
  0 < period → t < next_occurrence period offset t.
Proof.
  intros Hp. unfold next_occurrence.
  pose proof (Z.mod_pos_bound (t - offset) period Hp). lia.
Qed.

Lemma next_occurrence_on_grid (period offset t : Z) :
  0 < period →
  (next_occurrence period offset t - offset) mod period = 0
  ∧ next_occurrence period offset t - t <= period.
Proof.
  intros Hp. unfold next_occurrence.
  pose proof (Z.mod_pos_bound (t - offset) period Hp). split; [|lia].
  replace (t - (t - offset) mod period + period - offset)
    with ((t - offset) - (t - offset) mod period + 1 * period) by lia.
  rewrite Z.mod_add by lia.
  rewrite Zminus_mod, Z.mod_mod, Z.sub_diag by lia. by apply Z.mod_0_l; lia.
Qed.

Lemma valid_rule_after (schedule_type schedule_time : string) (r : rule) (t : Z) :
  valid_rule schedule_type schedule_time = Some r → t < next_fire r t.
Proof.
  unfold valid_rule. intros Hv.
  destruct r as [n|m|h m|d h m]; simpl;
    try (apply next_occurrence_after; lia).
  destruct (grammar schedule_type schedule_time) as [[n'| | |]|]; try done.
  destruct (0 <? n') eqn:Hn; simplify_eq. apply Z.ltb_lt in Hn. lia.
Qed.

Lemma the_task_eq (s : state) (l : list pyval) (i : nat) (d : list (string * pyval)) :
  tasks s = PList l → l !! i = Some (PDict d) → the_task i s = (inr d, s).
Proof.
  intros Ht Hi. unfold the_task, mbind, M_bind, get. by rewrite Ht, Hi.
Qed.

Lemma subscript_eq (d : list (string * pyval)) (k : string) (v : pyval) (s : state) :
  dict_get k d = Some v → subscript d k s = (inr v, s).
Proof. intros H. unfold subscript. by rewrite H. Qed.

(** On a task whose schedule fields are strings, [schedule_task] registers
    the rule the grammar reads, when it reads one. *)
Lemma schedule_task_grammar (s : state) (l : list pyval) (i : nat)
    (d : list (string * pyval)) (schedule_type schedule_time : string) (r : rule) :
  tasks s = PList l → l !! i = Some (PDict d) →
  dict_get "schedule_type" d = Some (PStr schedule_type) →
  dict_get "schedule_time" d = Some (PStr schedule_time) →
  grammar schedule_type schedule_time = Some r →
  schedule_task i s = (inr tt, registered i r s).
Proof.
  intros Ht Hi Hty Htime Hg. unfold schedule_task, mbind at 1, M_bind at 1.
  rewrite (the_task_eq s l i d Ht Hi).
  unfold schedule_task_body, mbind at 1, M_bind at 1. rewrite (subscript_eq _ _ _ _ Hty).
  unfold mbind at 1, M_bind at 1. rewrite (subscript_eq _ _ _ _ Htime).
  unfold grammar in Hg. unfold eq_str.
  destruct (String.eqb schedule_type "interval").
  { unfold mbind, M_bind, lift, Py.int.
    destruct (int_of_string schedule_time); by simplify_eq/=. }
  destruct (String.eqb schedule_type "hourly").
  { unfold mbind, M_bind, hour_at. simpl.
    destruct (at_hour _); by simplify_eq/=. }
  destruct (String.eqb schedule_type "daily").
  { unfold mbind, M_bind, day_at.
    destruct (at_day _) as [[h m]|]; by simplify_eq/=. }
  destruct (String.eqb schedule_type "weekly"); [|done].
  destruct (split schedule_time) as [|day [|time [|]]]; try done.
  destruct (weekday_attr (lower day)); [|done]. simpl in Hg.
  unfold mbind, M_bind, day_at.
  destruct (at_day time) as [[h m]|]; by simplify_eq/=.
Qed.

(** C1. A task with a valid (schedule_type, schedule_time) pair is
    registered by [schedule_task] with the rule the pair denotes, and the
    run time computed for that rule lies strictly after the time [t] at
    which it is computed: at registration ([t] is the clock then) and at
    every later recomputation, for all four schedule types. *)
Theorem next_run_after_now (s : state) (l : list pyval) (i : nat)
    (d : list (string * pyval)) (schedule_type schedule_time : string) (r : rule) :
  tasks s = PList l → l !! i = Some (PDict d) →
  dict_get "schedule_type" d = Some (PStr schedule_type) →
  dict_get "schedule_time" d = Some (PStr schedule_time) →
  valid_rule schedule_type schedule_time = Some r →
  schedule_task i s = (inr tt, registered i r s)
  ∧ (∃ j, last (jobs (registered i r s)) = Some j ∧ job_rule j = r
          ∧ clock s < next_run j)
  ∧ ∀ t, t < next_fire r t.
Proof.
  intros Ht Hi Hty Htime Hv.
  assert (Hg : grammar schedule_type schedule_time = Some r).
  { unfold valid_rule in Hv.
    destruct (grammar schedule_type schedule_time) as [[n| | |]|]; try done.
    destruct (0 <? n); by simplify_eq. }
  split; [by eapply schedule_task_grammar|]. split.
  - eexists. split; [apply last_snoc|]. simpl. split; [done|].
    by eapply valid_rule_after.
  - intros t. by eapply valid_rule_after.
Qed.

(** On a task whose schedule fields are strings and whose type is one of the
    four, [schedule_task] raises when the grammar reads no rule, and leaves
    the state as it found it. *)
Lemma schedule_task_rejects (s : state) (l : list pyval) (i : nat)
    (d : list (string * pyval)) (schedule_type schedule_time : string) :
  tasks s = PList l → l !! i = Some (PDict d) →
  dict_get "schedule_type" d = Some (PStr schedule_type) →
  dict_get "schedule_time" d = Some (PStr schedule_time) →
  is_schedule_type schedule_type = true →
  grammar schedule_type schedule_time = None →
  ∃ e, schedule_task i s = (inl e, s)
       ∧ (e = ValueError ∨ e = ScheduleValueError ∨ ∃ a, e = AttributeError a).
Proof.
  intros Ht Hi Hty Htime Hk Hg. unfold schedule_task, mbind at 1, M_bind at 1.
  rewrite (the_task_eq s l i d Ht Hi).
  unfold schedule_task_body, mbind at 1, M_bind at 1. rewrite (subscript_eq _ _ _ _ Hty).
  unfold mbind at 1, M_bind at 1. rewrite (subscript_eq _ _ _ _ Htime).
  unfold grammar in Hg. unfold is_schedule_type in Hk. unfold eq_str.
  destruct (String.eqb schedule_type "interval").
  { unfold mbind, M_bind, lift, Py.int.
    destruct (int_of_string schedule_time); [done|]. eauto. }
  destruct (String.eqb schedule_type "hourly").
  { unfold mbind, M_bind, hour_at. simpl.
    destruct (at_hour _); [done|]. unfold raise. eauto. }
  destruct (String.eqb schedule_type "daily").
  { unfold mbind, M_bind, day_at.
    destruct (at_day _) as [[h m]|]; [done|]. unfold raise. eauto. }
  destruct (String.eqb schedule_type "weekly"); [|done].
  destruct (split schedule_time) as [|day [|time [|]]];
    try (unfold raise; by eauto).
  destruct (weekday_attr (lower day)); [|unfold raise; by eauto 6].
  simpl in Hg. unfold mbind, M_bind, day_at.
  destruct (at_day time) as [[h m]|]; [done|]. unfold raise. eauto.
Qed.

(** [add_task] up to its last statement. *)
Lemma add_task_eq (s : state) (l : list pyval)
    (name command schedule_type schedule_time : string) :
  tasks s = PList l →
  add_task name command schedule_type schedule_time s
  = schedule_task (List.length l)
      (added (new_task name command schedule_type schedule_time) l s).
Proof.
  intros Ht. unfold add_task, mbind at 1, M_bind at 1, get. rewrite Ht.
  unfold mbind at 1, M_bind at 1, modify.
  unfold mbind at 1, M_bind at 1. by rewrite save_tasks_eq.
Qed.

(** C3. When the schedule_time of a new task does not parse under the
    grammar of its schedule_type, [add_task] raises to its caller at once,
    from the registration it ends with.  By then the task, with
    enabled=true, is the last element of the list written to the storage
    file; the job table is as it was. *)
Theorem invalid_schedule_fails_at_registration (s : state) (l : list pyval)
    (name command schedule_type schedule_time : string) :
  tasks s = PList l →
  is_schedule_type schedule_type = true →
  grammar schedule_type schedule_time = None →
  let task := new_task name command schedule_type schedule_time in
  ∃ e s',
    add_task name command schedule_type schedule_time s = (inl e, s')
    ∧ (e = ValueError ∨ e = ScheduleValueError ∨ ∃ a, e = AttributeError a)
    ∧ config_file s' = config_file s
    ∧ fs s' !! config_file s = Some (json_dumps (PList (l ++ [task])))
    ∧ tasks s' = PList (l ++ [task])
    ∧ item "enabled" task = Some (PBool true)
    ∧ jobs s' = jobs s.
Proof.
  intros Ht Hk Hg task. rewrite (add_task_eq s l _ _ _ _ Ht). fold task.
  destruct (schedule_task_rejects (added task l s) (l ++ [task]) (List.length l)
              _ schedule_type schedule_time eq_refl
              (list_lookup_middle l [] _ _ eq_refl) eq_refl eq_refl Hk Hg)
    as (e & He & Hkind).
  exists e, (added task l s). rewrite He. repeat split; try done.
  simpl. by rewrite lookup_insert_eq.
Qed.

(** [schedule_task] does one of three things: nothing, raise, or add one
    job for the task; it touches nothing but the job table. *)
Lemma schedule_task_cases (i : nat) (s : state) :
  schedule_task i s = (inr tt, s)
  ∨ (∃ e, schedule_task i s = (inl e, s))
  ∨ (∃ r, schedule_task i s = (inr tt, registered i r s)).
Proof.
  unfold schedule_task, schedule_task_body, the_task, subscript, hour_at,
    day_at, lift, raise, every_do, modify, get, mbind, M_bind, mret, M_ret,
    registered.
  repeat case_match; simplify_eq; eauto.
Qed.

(** C4. Whatever the four arguments, after [add_task] the storage file
    holds the dump of the task list with the new task at its end, so
    [load_tasks] returns a list whose last element carries exactly the four
    values, enabled=true and last_run=null.  This holds also when the
    registration that ends [add_task] raises.  The JSON module is asked for
    one thing: to read back the document it has written. *)
Theorem add_task_then_load (s : state) (l : list pyval)
    (name command schedule_type schedule_time : string) :
  tasks s = PList l →
  let task := new_task name command schedule_type schedule_time in
  json_loads (json_dumps (PList (l ++ [task]))) = Some (PList (l ++ [task])) →
  let s' := (add_task name command schedule_type schedule_time s).2 in
  ∃ l', load_tasks s' = (inr (PList l'), s')
        ∧ last l' = Some task
        ∧ task = PDict [("name", PStr name); ("command", PStr command);
                        ("schedule_type", PStr schedule_type);
                        ("schedule_time", PStr schedule_time);
                        ("enabled", PBool true); ("last_run", PNone)].
Proof.
  intros Ht task Hjson s'. exists (l ++ [task]).
  assert (Hs' : config_file s' = config_file s
                ∧ fs s' = <[config_file s := json_dumps (PList (l ++ [task]))]> (fs s)).
  { unfold s'. rewrite (add_task_eq s l _ _ _ _ Ht). fold task.
    destruct (schedule_task_cases (List.length l) (added task l s))
      as [H|[[e H]|[r H]]]; by rewrite H. }
  destruct Hs' as [Hcfg Hfs]. split; [|split; [apply last_snoc|done]].
  unfold load_tasks, mbind, M_bind, get.
  by rewrite Hcfg, Hfs, lookup_insert_eq, Hjson.
Qed.

(** *** Saving *)

(** C5 (amended). [save_tasks] opens the storage file for writing, which
    empties it, and then writes the dump of the task list into that same
    file.  Run to its end it leaves exactly the dump; cut short after the
    file was opened it leaves the part of the new dump written so far,
    whatever the file held before. *)
Theorem save_tasks_writes_in_place (s : state) (k : nat) :
  save_tasks s
  = (inr tt, set_fs (<[config_file s := json_dumps (tasks s)]> (fs s)) s)
  ∧ crash_after (S k) (config_file s) (json_dumps (tasks s)) (fs s)
    = <[config_file s :=
          string_of_list_ascii
            (take k (list_ascii_of_string (json_dumps (tasks s))))]> (fs s).
Proof. split; [apply save_tasks_eq | apply crash_after_S]. Qed.

(** *** Firing *)

Lemma job_eq (s : state) (l : list pyval) (i : nat)
    (d : list (string * pyval)) (name : pyval) :
  tasks s = PList l → l !! i = Some (PDict d) →
  dict_get "name" d = Some name →
  job i s = (inr tt, after_job l i d name s).
Proof.
  intros Ht Hi Hname.
  unfold job, after_job, the_task, subscript, subprocess_run, set_last_run,
    the_task, save_tasks, write_file, print, modify, try_except, now, get,
    raise, mbind, M_bind, mret, M_ret.
  rewrite Ht, Hi, Hname. cbn.
  destruct (dict_get "command" d) as [command|]; cbn; [|done].
  destruct (result (shell command (clock s) (fs s)))
    as [stdout stderr returncode|e]; cbn; [|done].
  destruct (negb _); cbn; rewrite Ht, Hi; cbn; rewrite Ht;
    by rewrite run_write_ops.
Qed.

Lemma dict_get_set_ne (k k' : string) (v : pyval) (d : list (string * pyval)) :
  k ≠ k' → dict_get k (dict_set k' v d) = dict_get k d.
Proof.
  intros Hne. induction d as [|[k0 v0] d IH]; simpl.
  - by apply String.eqb_neq in Hne as ->.
  - destruct (String.eqb_spec k' k0) as [->|]; simpl;
      [by apply String.eqb_neq in Hne as -> | by rewrite IH].
Qed.

Lemma dict_get_set_eq (k : string) (v : pyval) (d : list (string * pyval)) :
  dict_get k (dict_set k v d) = Some v.
Proof.
  induction d as [|[k0 v0] d IH]; simpl.
  - by rewrite String.eqb_refl.
  - destruct (String.eqb_spec k k0) as [->|Hne]; simpl.
    + by rewrite String.eqb_refl.
    + by apply String.eqb_neq in Hne as ->.
Qed.

(** What a firing leaves of the state, whatever the command did. *)
Lemma after_job_frame (s : state) (l : list pyval) (i : nat)
    (d : list (string * pyval)) (name : pyval) :
  tasks s = PList l → l !! i = Some (PDict d) →
  let s' := after_job l i d name s in
  config_file s' = config_file s ∧ jobs s' = jobs s ∧ clock s <= clock s'
  ∧ ∃ d', tasks s' = PList (<[i := PDict d']> l)
          ∧ ∀ k, k ≠ "last_run" → dict_get k d' = dict_get k d.
Proof.
  intros Ht Hi. unfold after_job.
  assert (Hsame : l = <[i := PDict d]> l) by (by rewrite list_insert_id).
  destruct (dict_get "command" d) as [command|]; cbn.
  2: { repeat split; [lia|]. exists d. by rewrite Ht, <- Hsame. }
  destruct (result _) as [stdout stderr rc|e]; cbn.
  2: { repeat split; [lia|]. exists d. by rewrite Ht, <- Hsame. }
  destruct (negb _); cbn; (repeat split; [lia|]);
    eexists; (split; [done|]); intros k Hk; by apply dict_get_set_ne.
Qed.

(** C7. A command that exits with a non-zero status is a completed
    process, not an exception: the closure [job] returns normally, prints
    the captured output and, when there is any, the captured stderr, sets
    the task's last_run to the time at which the command had finished and
    saves the task list.  [run_job] then gives the job its next run time. *)
Theorem nonzero_exit_is_recorded (s : state) (l : list pyval) (i : nat)
    (d : list (string * pyval)) (name command : pyval)
    (stdout stderr : string) (returncode : Z) :
  tasks s = PList l → l !! i = Some (PDict d) →
  dict_get "name" d = Some name → dict_get "command" d = Some command →
  result (shell command (clock s) (fs s)) = Completed stdout stderr returncode →
  returncode ≠ 0 →
  let t' := clock s + Z.of_N (elapsed (shell command (clock s) (fs s))) in
  ∃ s',
    job i s = (inr tt, s')
    ∧ clock s' = t'
    ∧ tasks s'
      = PList (<[i := PDict (dict_set "last_run" (PStr (isoformat t')) d)]> l)
    ∧ fs s' !! config_file s' = Some (json_dumps (tasks s'))
    ∧ out s' = out s ++ [LRunning (clock s) name] ++ [LOutput stdout]
                 ++ (if truthy (PStr stderr) then [LError stderr] else [])
    ∧ ∀ k j, jobs s !! k = Some j → job_task j = i →
        ∃ s'', run_job k s = (inr tt, s'')
               ∧ tasks s'' = tasks s' ∧ fs s'' = fs s'
               ∧ jobs s'' !! k
                 = Some {| job_task := i; job_rule := job_rule j;
                           next_run := next_fire (job_rule j) t';
                           last_run := Some t' |}.
Proof.
  intros Ht Hi Hname Hcmd Hres _ t'.
  pose proof (job_eq s l i d name Ht Hi Hname) as Hjob.
  assert (Hs' : ∃ s', after_job l i d name s = s' ∧ clock s' = t'
    ∧ tasks s'
      = PList (<[i := PDict (dict_set "last_run" (PStr (isoformat t')) d)]> l)
    ∧ fs s' !! config_file s' = Some (json_dumps (tasks s'))
    ∧ out s' = out s ++ [LRunning (clock s) name] ++ [LOutput stdout]
                 ++ (if truthy (PStr stderr) then [LError stderr] else [])
    ∧ jobs s' = jobs s).
  { eexists. split; [done|]. unfold after_job. rewrite Hcmd. cbn. rewrite Hres.
    destruct (negb _); cbn; rewrite lookup_insert_eq, <- ?app_assoc; done. }
  destruct Hs' as (s' & Hafter & Hclock & Htasks & Hfs & Hout & Hjobs).
  rewrite Hafter in Hjob. exists s'. repeat (split; [done|]).
  intros k j Hk <-. unfold run_job, mbind at 1, M_bind at 1, get. rewrite Hk.
  unfold mbind at 1, M_bind at 1. rewrite Hjob.
  unfold mbind, M_bind, now, modify. eexists. split; [done|]. cbn.
  rewrite Hjobs, list_lookup_insert_eq, Hclock; [done|].
  by eapply lookup_lt_Some.
Qed.

(** C9. A firing leaves the task list as long as it was, leaves every other
    task as it was and, in the fired task, keeps the value of every key
    other than last_run.  When the command completed, the storage file
    written at the end of the firing is the dump of that same list. *)
Theorem firing_changes_last_run_only (s : state) (l : list pyval) (i : nat)
    (d : list (string * pyval)) (name : pyval) :
  tasks s = PList l → l !! i = Some (PDict d) →
  dict_get "name" d = Some name →
  ∃ s' l' d',
    job i s = (inr tt, s')
    ∧ tasks s' = PList l'
    ∧ List.length l' = List.length l
    ∧ (∀ j, j ≠ i → l' !! j = l !! j)
    ∧ l' !! i = Some (PDict d')
    ∧ (∀ k, k ≠ "last_run" → dict_get k d' = dict_get k d)
    ∧ (∀ command stdout stderr returncode,
         dict_get "command" d = Some command →
         result (shell command (clock s) (fs s))
           = Completed stdout stderr returncode →
         fs s' !! config_file s' = Some (json_dumps (PList l'))).
Proof.
  intros Ht Hi Hname.
  destruct (after_job_frame s l i d name Ht Hi) as (_ & _ & _ & d' & Ht' & Hd').
  exists (after_job l i d name s), (<[i := PDict d']> l), d'.
  split; [by apply job_eq|]. split; [done|].
  split; [by rewrite length_insert|].
  split; [by intros j Hj; rewrite list_lookup_insert_ne|].
  split; [by rewrite list_lookup_insert_eq; [|eapply lookup_lt_Some]|].
  split; [done|].
  intros command stdout stderr rc Hcmd Hres. rewrite <- Ht'.
  unfold after_job. rewrite Hcmd. cbn. rewrite Hres.
  destruct (negb _); cbn; by rewrite lookup_insert_eq.
Qed.

(** *** The poll loop *)

Lemma jobs_ok_spec (s : state) :
  jobs_ok s = true ↔ Forall (refers_to_named s) (jobs s).
Proof.
  unfold jobs_ok. rewrite forallb_forall, Forall_forall.
  split; intros H j Hj.
  - apply list_elem_of_In, H in Hj.
    unfold refers_to_named, task_at, named, item in *.
    destruct (tasks s) as [| | | |l|]; try done.
    destruct (l !! job_task j) as [[| | | | |d]|] eqn:Hl; try done.
    destruct (dict_get "name" d) as [name|] eqn:Hn; [|done].
    by exists l, d, name.
  - apply list_elem_of_In, H in Hj. destruct Hj as (l & d & name & Ht & Hl & Hn).
    unfold task_at, named, item. by rewrite Ht, Hl, Hn.
Qed.

Lemma run_job_ok (k : nat) (s : state) :
  jobs_ok s = true →
  ∃ s', run_job k s = (inr tt, s')
        ∧ jobs_ok s' = true ∧ clock s <= clock s'
        ∧ match jobs s !! k with
          | Some j => jobs s' = <[k := rescheduled j (clock s')]> (jobs s)
          | None => s' = s
          end.
Proof.
  intros Hok. pose proof Hok as Hjobs%jobs_ok_spec.
  unfold run_job, mbind at 1, M_bind at 1, get.
  destruct (jobs s !! k) as [j|] eqn:Hk.
  2: { exists s. unfold mret, M_ret. split; [done|]. split; [done|].
       split; [lia|done]. }
  pose proof (Forall_lookup_1 _ _ _ _ Hjobs Hk) as (l & d & name & Ht & Hi & Hname).
  unfold mbind at 1, M_bind at 1. rewrite (job_eq s l _ d name Ht Hi Hname).
  destruct (after_job_frame s l _ d name Ht Hi)
    as (Hcfg & Hjs & Hclk & d' & Ht' & Hd').
  unfold mbind, M_bind, now, modify. eexists. split; [done|]. cbn.
  rewrite Hjs. split; [|done].
  apply jobs_ok_spec. cbn.
  assert (Hl' : ∀ j0, refers_to_named s j0 →
    refers_to_named
      (set_jobs (<[k := rescheduled j (clock (after_job l (job_task j) d name s))]>
                   (jobs s)) (after_job l (job_task j) d name s)) j0).
  { intros j0 (l0 & d0 & n0 & Ht0 & Hj0 & Hn0). unfold refers_to_named. cbn.
    rewrite Ht'. assert (l0 = l) as -> by congruence.
    destruct (decide (job_task j0 = job_task j)) as [->|Hne].
    - exists (<[job_task j := PDict d']> l), d', name.
      rewrite list_lookup_insert_eq by (by eapply lookup_lt_Some).
      split; [done|]. split; [done|]. by rewrite Hd'.
    - exists (<[job_task j := PDict d']> l), d0, n0.
      by rewrite list_lookup_insert_ne. }
  apply Forall_insert.
  - eapply Forall_impl; [done|]. intros j0 Hj0. by apply Hl'.
  - apply (Hl' j). unfold refers_to_named. eauto 6.
Qed.

Lemma run_jobs_ok (ks : list nat) (s : state) :
  NoDup ks → jobs_ok s = true →
  ∃ s', run_jobs ks s = (inr tt, s')
        ∧ jobs_ok s' = true ∧ clock s <= clock s'
        ∧ List.length (jobs s') = List.length (jobs s)
        ∧ ∀ k j, jobs s !! k = Some j →
            (k ∈ ks → ∃ t, clock s <= t ∧ jobs s' !! k = Some (rescheduled j t))
            ∧ (k ∉ ks → jobs s' !! k = Some j).
Proof.
  intros Hnd. revert s. induction Hnd as [|k0 ks Hk0 Hnd IH]; intros s Hok.
  { exists s. split; [done|]. split; [done|]. split; [lia|]. split; [done|].
    intros k j Hk. split; [by intros ?%elem_of_nil|done]. }
  destruct (run_job_ok k0 s Hok) as (s1 & Hrun & Hok1 & Hclk1 & Hjobs1).
  destruct (IH s1 Hok1) as (s' & Hrest & Hok' & Hclk' & Hlen & Hall).
  exists s'. simpl. unfold mbind, M_bind. rewrite Hrun.
  assert (Hlen1 : List.length (jobs s1) = List.length (jobs s)).
  { destruct (jobs s !! k0); [|by subst].
    by rewrite Hjobs1, length_insert. }
  split; [done|]. split; [done|]. split; [lia|]. split; [congruence|].
  intros k j H. split.
  - intros [->|Hin]%elem_of_cons.
    + rewrite H in Hjobs1. exists (clock s1). split; [done|].
      apply (Hall k0 (rescheduled j (clock s1))); [|done].
      rewrite Hjobs1. apply list_lookup_insert_eq. by eapply lookup_lt_Some.
    + assert (k ≠ k0) by (by intros ->).
      assert (Hk1 : jobs s1 !! k = Some j).
      { destruct (jobs s !! k0); [|by subst].
        by rewrite Hjobs1, list_lookup_insert_ne. }
      destruct (proj1 (Hall k j Hk1) Hin) as (t & Ht & Hj).
      exists t. split; [lia|done].
  - intros Hnin. apply not_elem_of_cons in Hnin as [Hne Hnin].
    assert (Hk1 : jobs s1 !! k = Some j).
    { destruct (jobs s !! k0); [|by subst].
      by rewrite Hjobs1, list_lookup_insert_ne. }
    by apply (Hall k j Hk1).
Qed.

Lemma due_jobs_spec (s : state) (k : nat) :
  k ∈ due_jobs s
  ↔ ∃ j, jobs s !! k = Some j ∧ should_run (clock s) j = true.
Proof.
  unfold due_jobs. rewrite list_elem_of_In, filter_In, in_seq. split.
  - intros [_ H]. destruct (jobs s !! k) as [j|]; [eauto|done].
  - intros (j & Hk & Hrun). rewrite Hk. split; [|done].
    apply lookup_lt_Some in Hk. lia.
Qed.

(** One round of the loop: every job that is due is run and given a next
    run time, the others are left alone, and nothing is raised. *)
Lemma run_pending_ok (s : state) :
  jobs_ok s = true →
  ∃ s', run_pending s = (inr tt, s')
        ∧ jobs_ok s' = true
        ∧ List.length (jobs s') = List.length (jobs s)
        ∧ ∀ k j, jobs s !! k = Some j →
            if should_run (clock s) j
            then ∃ t, clock s <= t ∧ jobs s' !! k = Some (rescheduled j t)
            else jobs s' !! k = Some j.
Proof.
  intros Hok.
  assert (Hnd : NoDup (due_jobs s)).
  { unfold due_jobs. apply NoDup_ListNoDup, List.NoDup_filter, seq_NoDup. }
  destruct (run_jobs_ok (due_jobs s) s Hnd Hok)
    as (s' & Hrun & Hok' & _ & Hlen & Hall).
  exists s'. unfold run_pending, mbind, M_bind, get.
  split; [done|]. split; [done|]. split; [done|]. intros k j Hk.
  destruct (Hall k j Hk) as [Hin Hnin].
  destruct (should_run (clock s) j) eqn:Hdue.
  - apply Hin, due_jobs_spec. eauto.
  - apply Hnin. rewrite due_jobs_spec. intros (j' & Hk' & Hrun'). congruence.
Qed.

Lemma poll_ok (n : nat) (s : state) :
  jobs_ok s = true →
  ∃ s', poll n s = (inr tt, s')
        ∧ jobs_ok s' = true
        ∧ List.length (jobs s') = List.length (jobs s).
Proof.
  revert s. induction n as [|n IH]; intros s Hok; [by exists s|].
  destruct (run_pending_ok s Hok) as (s1 & Hrun & Hok1 & Hlen1 & _).
  assert (Hok2 : jobs_ok (set_clock (clock s1 + 1) s1) = true) by done.
  destruct (IH _ Hok2) as (s' & Hpoll & Hok' & Hlen').
  exists s'. simpl. unfold mbind, M_bind, sleep, modify. rewrite Hrun.
  split; [done|]. split; [done|]. by rewrite Hlen', <- Hlen1.
Qed.

(** The [for] loop of [run], when it gets through, leaves a well-formed job
    table: a task it registered has passed [task['name']] in the [print]
    that follows. *)
Lemma schedule_all_ok (rest pre : list pyval) (i : nat) (s s' : state) :
  tasks s = PList (pre ++ rest) → i = List.length pre →
  jobs_ok s = true →
  schedule_all rest i s = (inr tt, s') → jobs_ok s' = true.
Proof.
  revert pre i s. induction rest as [|task rest IH]; intros pre i s Ht Hi Hok Hrun.
  { simpl in Hrun. unfold mret, M_ret in Hrun. by simplify_eq. }
  assert (Hnext : ∀ s1, tasks s1 = tasks s → jobs_ok s1 = true →
            schedule_all rest (S i) s1 = (inr tt, s') → jobs_ok s' = true).
  { intros s1 Ht1 Hok1. apply (IH (pre ++ [task])); [|by rewrite length_app, Hi, Nat.add_1_r|done].
    by rewrite Ht1, Ht, <- app_assoc. }
  simpl in Hrun. destruct task as [| | | | |d]; try done.
  unfold mbind at 1, M_bind at 1 in Hrun.
  destruct (truthy _); [|by apply (λ a b, Hnext _ a b Hrun)].
  unfold mbind at 1, M_bind at 1 in Hrun.
  assert (Hat : (pre ++ PDict d :: rest) !! i = Some (PDict d))
    by (by apply list_lookup_middle).
  destruct (schedule_task_cases i s) as [Hc|[[e Hc]|[r Hc]]];
    rewrite Hc in Hrun; [|done|].
  - unfold mbind at 1, M_bind at 1, subscript in Hrun.
    destruct (dict_get "name" d); [|done].
    unfold mret, M_ret, print, modify in Hrun.
    by apply (λ a b, Hnext _ a b Hrun).
  - unfold mbind at 1, M_bind at 1, subscript in Hrun.
    destruct (dict_get "name" d) as [name|] eqn:Hname; [|done].
    unfold mret, M_ret, print, modify in Hrun.
    apply (λ a b, Hnext _ a b Hrun); [done|].
    apply jobs_ok_spec. cbn. apply Forall_app. split.
    + apply jobs_ok_spec in Hok. eapply Forall_impl; [done|].
      by intros j (l0 & d0 & n0 & ? & ? & ?); exists l0, d0, n0.
    + apply Forall_singleton. by exists (pre ++ PDict d :: rest), d, name.
Qed.

Lemma schedule_enabled_ok (s s' : state) :
  jobs s = [] → schedule_enabled s = (inr tt, s') → jobs_ok s' = true.
Proof.
  intros Hjobs. unfold schedule_enabled, mbind, M_bind, print, modify, get.
  assert (Hok : jobs_ok (set_out (out s ++ [LStarted]) s) = true).
  { unfold jobs_ok. cbn. by rewrite Hjobs. }
  cbn. destruct (tasks s) as [| | |str|l|[|]] eqn:Ht; try done.
  - destruct (negb _); [done|]. unfold mret, M_ret. by intros [= <-].
  - by apply (schedule_all_ok l [] 0).
  - unfold mret, M_ret. by intros [= <-].
Qed.

Lemma after_job_out (s : state) (l : list pyval) (i : nat)
    (d : list (string * pyval)) (name : pyval) :
  out (after_job l i d name s)
  = out s ++ job_log name (dict_get "command" d) (clock s) (fs s).
Proof.
  unfold after_job, job_log. destruct (dict_get "command" d) as [c|]; cbn.
  2: { by rewrite <- app_assoc. }
  destruct (result (shell c (clock s) (fs s))) as [stdout stderr rc|e]; cbn.
  - destruct (negb _); cbn; by rewrite <- !app_assoc.
  - by rewrite <- app_assoc.
Qed.

(** One job of a well-formed table, run: its firing is in the output, and
    the task dicts keep their names and commands. *)
Lemma run_job_fires (k : nat) (s : state) (j : Job)
    (d : list (string * pyval)) (name : pyval) :
  jobs_ok s = true → jobs s !! k = Some j →
  task_at (job_task j) s = Some (PDict d) → dict_get "name" d = Some name →
  ∃ s', run_job k s = (inr tt, s')
        ∧ out s' = out s ++ job_log name (dict_get "command" d) (clock s) (fs s).
Proof.
  intros Hok Hk Hat Hname. unfold task_at in Hat.
  destruct (tasks s) as [| | | |l|] eqn:Ht; try done.
  unfold run_job. unfold mbind at 1, M_bind at 1, get. rewrite Hk.
  unfold mbind at 1, M_bind at 1. rewrite (job_eq s l _ d name Ht Hat Hname).
  unfold mbind, M_bind, now, modify. eexists. split; [done|]. cbn.
  apply after_job_out.
Qed.

(** What a run of some jobs keeps: well-formedness, the job at each
    position up to its run times, the name and command of each task; and
    the output only grows. *)
Lemma run_jobs_keeps (ks : list nat) (s : state) :
  jobs_ok s = true →
  ∃ s' ext, run_jobs ks s = (inr tt, s')
    ∧ jobs_ok s' = true ∧ clock s <= clock s'
    ∧ out s' = out s ++ ext
    ∧ ∀ k j d name,
        jobs s !! k = Some j → task_at (job_task j) s = Some (PDict d) →
        dict_get "name" d = Some name →
        ∃ j' d', jobs s' !! k = Some j'
                 ∧ task_at (job_task j') s' = Some (PDict d')
                 ∧ dict_get "name" d' = Some name
                 ∧ dict_get "command" d' = dict_get "command" d.
Proof.
  revert s. induction ks as [|k0 ks IH]; intros s Hok.
  { exists s, []. simpl. rewrite app_nil_r. split; [done|]. split; [done|].
    split; [lia|]. split; [done|]. intros k j d name Hk Hat Hname.
    by exists j, d. }
  assert (Hstep : ∃ s1 ext1, run_job k0 s = (inr tt, s1)
    ∧ jobs_ok s1 = true ∧ clock s <= clock s1 ∧ out s1 = out s ++ ext1
    ∧ ∀ k j d name,
        jobs s !! k = Some j → task_at (job_task j) s = Some (PDict d) →
        dict_get "name" d = Some name →
        ∃ j' d', jobs s1 !! k = Some j'
                 ∧ task_at (job_task j') s1 = Some (PDict d')
                 ∧ dict_get "name" d' = Some name
                 ∧ dict_get "command" d' = dict_get "command" d).
  { destruct (run_job_ok k0 s Hok) as (s1 & Hrun & Hok1 & Hclk & Hjobs).
    destruct (jobs s !! k0) as [j0|] eqn:Hk0.
    2: { subst s1. exists s, []. rewrite app_nil_r.
         split; [done|]. split; [done|]. split; [lia|]. split; [done|].
         intros k j d name Hk Hat Hname. by exists j, d. }
    pose proof Hok as Hall%jobs_ok_spec.
    pose proof (Forall_lookup_1 _ _ _ _ Hall Hk0)
      as (l & d0 & name0 & Ht & Hi & Hname0).
    assert (Hat0 : task_at (job_task j0) s = Some (PDict d0))
      by (unfold task_at; by rewrite Ht).
    destruct (run_job_fires k0 s j0 d0 name0 Hok Hk0 Hat0 Hname0)
      as (s1' & Hrun' & Hout).
    assert (s1' = s1) as -> by congruence.
    assert (Hs1 : tasks s1 = tasks (after_job l (job_task j0) d0 name0 s)).
    { unfold run_job in Hrun. unfold mbind at 1, M_bind at 1, get in Hrun.
      rewrite Hk0 in Hrun. unfold mbind at 1, M_bind at 1 in Hrun.
      rewrite (job_eq s l _ d0 name0 Ht Hi Hname0) in Hrun.
      unfold mbind, M_bind, now, modify in Hrun. by injection Hrun as <-. }
    destruct (after_job_frame s l _ d0 name0 Ht Hi) as (_ & _ & _ & d0' & Ht' & Hd0').
    rewrite Ht' in Hs1.
    eexists s1, _. split; [done|]. split; [done|]. split; [done|].
    split; [exact Hout|].
    intros k j d name Hk Hat Hname.
    assert (Hj' : ∃ j', jobs s1 !! k = Some j' ∧ job_task j' = job_task j).
    { rewrite Hjobs. destruct (decide (k = k0)) as [->|Hne].
      - exists (rescheduled j0 (clock s1)).
        rewrite list_lookup_insert_eq by (by eapply lookup_lt_Some).
        split; [done|]. simpl. congruence.
      - exists j. by rewrite list_lookup_insert_ne. }
    destruct Hj' as (j' & Hk' & Hjt). exists j'.
    unfold task_at in Hat |- *. rewrite Ht in Hat. rewrite Hs1, Hjt.
    destruct (decide (job_task j = job_task j0)) as [Heq|Hne].
    - rewrite Heq in Hat |- *. assert (d = d0) as -> by congruence.
      exists d0'. rewrite list_lookup_insert_eq by (by eapply lookup_lt_Some).
      split; [done|]. split; [done|]. split; [by rewrite Hd0'|by rewrite Hd0'].
    - exists d. rewrite list_lookup_insert_ne by done. done. }
  destruct Hstep as (s1 & ext1 & Hrun & Hok1 & Hclk1 & Hout1 & Hkeep1).
  destruct (IH s1 Hok1) as (s' & ext & Hrest & Hok' & Hclk' & Hout' & Hkeep').
  exists s', (ext1 ++ ext). simpl. unfold mbind, M_bind. rewrite Hrun.
  split; [done|]. split; [done|]. split; [lia|].
  split; [by rewrite Hout', Hout1, app_assoc|].
  intros k j d name Hk Hat Hname.
  destruct (Hkeep1 k j d name Hk Hat Hname) as (j1 & d1 & Hk1 & Hat1 & Hn1 & Hc1).
  destruct (Hkeep' k j1 d1 name Hk1 Hat1 Hn1) as (j' & d' & Hk' & Hat' & Hn' & Hc').
  exists j', d'. split; [done|]. split; [done|]. split; [done|]. congruence.
Qed.

(** Every job in the list that is run is fired: its firing is in the
    output, whatever the jobs run before and after it did. *)
Lemma run_jobs_fires (ks : list nat) (s : state) (k : nat) (j : Job)
    (d : list (string * pyval)) (name : pyval) :
  jobs_ok s = true → k ∈ ks → jobs s !! k = Some j →
  task_at (job_task j) s = Some (PDict d) → dict_get "name" d = Some name →
  ∃ s' t f pre post,
    run_jobs ks s = (inr tt, s') ∧ jobs_ok s' = true
    ∧ clock s <= t ∧ clock s <= clock s'
    ∧ out s' = out s ++ pre ++ job_log name (dict_get "command" d) t f ++ post.
Proof.
  revert s j d. induction ks as [|k0 ks IH]; intros s j d Hok Hin Hk Hat Hname.
  { by apply elem_of_nil in Hin. }
  destruct (decide (k = k0)) as [->|Hne].
  - destruct (run_job_fires k0 s j d name Hok Hk Hat Hname) as (s1 & Hrun & Hout1).
    destruct (run_job_ok k0 s Hok) as (s1' & Hrun' & Hok1 & Hclk1 & _).
    assert (s1' = s1) as -> by congruence.
    destruct (run_jobs_keeps ks s1 Hok1) as (s' & ext & Hrest & Hok' & Hclk' & Hout' & _).
    exists s', (clock s), (fs s), [], ext. simpl. unfold mbind, M_bind.
    rewrite Hrun. split; [done|]. split; [done|]. split; [lia|]. split; [lia|].
    by rewrite Hout', Hout1, <- app_assoc.
  - apply elem_of_cons in Hin as [?|Hin]; [done|].
    destruct (run_jobs_keeps [k0] s Hok) as (s1 & ext1 & Hrun1 & Hok1 & Hclk1 & Hout1 & Hkeep).
    simpl in Hrun1. unfold mbind, M_bind, mret, M_ret in Hrun1.
    destruct (run_job k0 s) as [[e|[]] s1'] eqn:Hrun; [done|].
    injection Hrun1 as ->.
    destruct (Hkeep k j d name Hk Hat Hname) as (j1 & d1 & Hk1 & Hat1 & Hn1 & Hc1).
    destruct (IH s1 j1 d1 Hok1 Hin Hk1 Hat1 Hn1)
      as (s' & t & f & pre & post & Hrest & Hok' & Ht & Hclk' & Hout').
    exists s', t, f, (ext1 ++ pre), post. simpl. unfold mbind, M_bind.
    rewrite Hrun. split; [done|]. split; [done|]. split; [lia|]. split; [lia|].
    by rewrite Hout', Hout1, Hc1, <- !app_assoc.
Qed.

Lemma poll_add (m p : nat) (s : state) :
  poll (m + p) s = (poll m;; poll p) s.
Proof.
  revert s. induction m as [|m IH]; intros s; [done|].
  simpl. unfold mbind, M_bind in *.
  destruct (run_pending s) as [[e|[]] s1]; [done|].
  unfold sleep, modify. apply IH.
Qed.

Lemma poll_out_grows (n : nat) (s : state) :
  jobs_ok s = true →
  ∃ s' ext, poll n s = (inr tt, s') ∧ out s' = out s ++ ext.
Proof.
  revert s. induction n as [|n IH]; intros s Hok.
  { exists s, []. by rewrite app_nil_r. }
  destruct (run_jobs_keeps (due_jobs s) s Hok)
    as (s1 & ext1 & Hrun & Hok1 & _ & Hout1 & _).
  assert (Hok2 : jobs_ok (set_clock (clock s1 + 1) s1) = true) by done.
  destruct (IH _ Hok2) as (s' & ext & Hpoll & Hout').
  assert (Hpend : run_pending s = (inr tt, s1))
    by (unfold run_pending, mbind, M_bind, get; exact Hrun).
  exists s', (ext1 ++ ext). simpl.
  unfold mbind, M_bind, sleep, modify. rewrite Hpend, Hpoll.
  split; [done|]. simpl in Hout'. by rewrite Hout', Hout1, app_assoc.
Qed.

(** Whatever round the loop is in, a job that is due at its start is fired
    in that round. *)
Lemma poll_fires_due (m p : nat) (s sm : state) (k : nat) (j : Job)
    (d : list (string * pyval)) (name : pyval) :
  jobs_ok s = true → poll m s = (inr tt, sm) →
  jobs sm !! k = Some j → should_run (clock sm) j = true →
  task_at (job_task j) sm = Some (PDict d) → dict_get "name" d = Some name →
  ∃ s' t f pre post,
    poll (m + S p) s = (inr tt, s')
    ∧ clock sm <= t
    ∧ out s' = out sm ++ pre ++ job_log name (dict_get "command" d) t f ++ post.
Proof.
  intros Hok Hm Hk Hdue Hat Hname.
  destruct (poll_ok m s Hok) as (sm' & Hm' & Hokm & _).
  assert (sm' = sm) as -> by congruence.
  assert (Hin : k ∈ due_jobs sm) by (apply due_jobs_spec; eauto).
  destruct (run_jobs_fires (due_jobs sm) sm k j d name Hokm Hin Hk Hat Hname)
    as (s1 & t & f & pre & post & Hrun & Hok1 & Ht & _ & Hout1).
  assert (Hok2 : jobs_ok (set_clock (clock s1 + 1) s1) = true) by done.
  destruct (poll_out_grows p _ Hok2) as (s' & ext & Hpoll & Hout').
  assert (Hpend : run_pending sm = (inr tt, s1))
    by (unfold run_pending, mbind, M_bind, get; exact Hrun).
  exists s', t, f, pre, (post ++ ext).
  rewrite poll_add. unfold mbind at 1, M_bind at 1. rewrite Hm. simpl.
  unfold mbind, M_bind, sleep, modify. rewrite Hpend, Hpoll.
  split; [done|]. split; [done|]. simpl in Hout'.
  by rewrite Hout', Hout1, <- !app_assoc.
Qed.

(** C8. In a process whose job table is well formed, an exception raised
    while a command is started is caught inside the closure [job], which
    prints it and returns; it changes neither the task list nor the job
    table.  So a round of the poll loop raises nothing, runs every job that
    is due and gives it a next run time, whatever happened to the jobs run
    before it, and leaves the other jobs alone; and the loop goes through
    any number of rounds.  [run] establishes the well-formed table before it
    enters the loop.  The loop keeps polling and firing: in whatever round
    a job is due, that round fires it, and the lines of its firing (its
    start, then the command's output or the exception) are in the output,
    whichever shell the commands run on and whatever the other jobs did. *)
Theorem failures_stay_inside_the_firing (s : state) (n : nat) :
  jobs_ok s = true →
  (∀ l i d name command e,
     tasks s = PList l → l !! i = Some (PDict d) →
     dict_get "name" d = Some name → dict_get "command" d = Some command →
     result (shell command (clock s) (fs s)) = Failed e →
     ∃ s', job i s = (inr tt, s')
           ∧ out s' = out s ++ [LRunning (clock s) name] ++ [LTaskError name e]
           ∧ tasks s' = tasks s ∧ jobs s' = jobs s)
  ∧ (∃ s', run_pending s = (inr tt, s')
           ∧ ∀ k j, jobs s !! k = Some j →
               if should_run (clock s) j
               then ∃ t, clock s <= t ∧ jobs s' !! k = Some (rescheduled j t)
               else jobs s' !! k = Some j)
  ∧ (∃ s', poll n s = (inr tt, s')
           ∧ List.length (jobs s') = List.length (jobs s))
  ∧ (∀ s0 e s1, jobs s0 = [] → run n s0 = (inl e, s1) →
       schedule_enabled s0 = (inl e, s1))
  ∧ (∀ m p sm k j d name,
       poll m s = (inr tt, sm) →
       jobs sm !! k = Some j → should_run (clock sm) j = true →
       task_at (job_task j) sm = Some (PDict d) →
       dict_get "name" d = Some name →
       ∃ s' t f pre post,
         poll (m + S p) s = (inr tt, s')
         ∧ clock sm <= t
         ∧ out s' = out sm ++ pre
                      ++ job_log name (dict_get "command" d) t f ++ post).
Proof.
  intros Hok. split; [|split; [|split; [|split]]].
  - intros l i d name command e Ht Hi Hname Hcmd Hres.
    exists (after_job l i d name s). split; [by apply job_eq|].
    unfold after_job. rewrite Hcmd. cbn. rewrite Hres. cbn.
    by rewrite <- app_assoc.
  - destruct (run_pending_ok s Hok) as (s' & Hrun & _ & _ & Hall). eauto.
  - destruct (poll_ok n s Hok) as (s' & Hpoll & _ & Hlen). eauto.
  - intros s0 e s1 Hjobs. unfold run, mbind, M_bind.
    destruct (schedule_enabled s0) as [[e0|[]] s2] eqn:Hsched; [done|].
    destruct (poll_ok n s2 (schedule_enabled_ok s0 s2 Hjobs Hsched))
      as (s' & -> & _). done.
  - intros m p sm k j d name Hm Hk Hdue Hat Hname.
    by eapply poll_fires_due.
Qed.

(** *** The script *)

Lemma poll_idle (n : nat) (s : state) :
  jobs s = [] → poll n s = (inr tt, set_clock (clock s + Z.of_nat n) s).
Proof.
  revert s. induction n as [|n IH]; intros s Hjobs.
  - simpl. unfold mret, M_ret. rewrite Z.add_0_r. by destruct s.
  - assert (clock s + Z.of_nat (S n) = clock s + 1 + Z.of_nat n) as -> by lia.
    assert (Hidle : run_pending s = (inr tt, s)).
    { unfold run_pending, mbind, M_bind, get, due_jobs. by rewrite Hjobs. }
    simpl. unfold mbind, M_bind, sleep, modify. rewrite Hidle. by rewrite IH.
Qed.

(** C6 (amended). When no storage file exists at startup, the scheduler is
    built first and loads the empty list; only then is the example list
    written to the storage file.  That run registers no job and polls an
    empty table; the examples are what [load_tasks] returns from then on. *)
Theorem first_run_schedules_nothing (s : state) (n : nat) :
  fs s !! "tasks.json" = None → jobs s = [] →
  ∃ s', main n s = (inr tt, s')
        ∧ fs s' !! "tasks.json" = Some (json_dumps EXAMPLE_TASKS)
        ∧ tasks s' = PList []
        ∧ jobs s' = []
        ∧ out s' = out s ++ [LCreated] ++ [LStarted]
        ∧ (json_loads (json_dumps EXAMPLE_TASKS) = Some EXAMPLE_TASKS →
           load_tasks s' = (inr EXAMPLE_TASKS, s')).
Proof.
  intros Hfs Hjobs. eexists. split.
  - unfold main, __init__, load_tasks, run, schedule_enabled, print, modify,
      get, mbind, M_bind, mret, M_ret. cbn -[write_file]. rewrite Hfs.
    cbn -[write_file]. rewrite Hfs, write_file_eq. cbn. by rewrite poll_idle.
  - cbn. rewrite lookup_insert_eq, <- app_assoc. repeat (split; [done|]).
    intros Hjson. unfold load_tasks, get, mbind, M_bind. cbn.
    by rewrite lookup_insert_eq, Hjson.
Qed.

(** *** The enabled flag *)

Lemma frames_ret {A} (x : A) : frames_tasks (mret x).
Proof. done. Qed.

Lemma frames_raise {A} (e : exn) : frames_tasks (raise (A := A) e).
Proof. done. Qed.

Lemma frames_lift {A} (r : exn + A) : frames_tasks (lift r).
Proof. done. Qed.

Lemma frames_bind {A B} (m : M A) (f : A → M B) :
  frames_tasks m → (∀ x, frames_tasks (f x)) → frames_tasks (m ≫= f).
Proof.
  intros Hm Hf s T. unfold mbind, M_bind. rewrite Hm.
  destruct (m s) as [[e|x] s']; [done|apply Hf].
Qed.

Lemma frames_every_do (i : nat) (r : rule) : frames_tasks (every_do i r).
Proof. done. Qed.

Lemma frames_print (l : line) : frames_tasks (print l).
Proof. done. Qed.

Lemma frames_subscript (d : list (string * pyval)) (k : string) :
  frames_tasks (subscript d k).
Proof. unfold subscript. by destruct (dict_get k d). Qed.

Lemma frames_hour_at (v : pyval) : frames_tasks (hour_at v).
Proof. unfold hour_at. by destruct (_ ≫= _). Qed.

Lemma frames_day_at (v : pyval) : frames_tasks (day_at v).
Proof. unfold day_at. destruct v; try done. by destruct (at_day s). Qed.

Create HintDb frames.
#[local] Hint Resolve frames_ret frames_raise frames_lift frames_every_do
  frames_print frames_subscript frames_hour_at frames_day_at : frames.

Lemma frames_schedule_task_body (i : nat) (task : list (string * pyval)) :
  frames_tasks (schedule_task_body i task).
Proof.
  unfold schedule_task_body.
  apply frames_bind; [auto with frames|]. intros schedule_type.
  apply frames_bind; [auto with frames|]. intros schedule_time.
  destruct (eq_str schedule_type "interval").
  { apply frames_bind; auto with frames. }
  destruct (eq_str schedule_type "hourly").
  { apply frames_bind; auto with frames. }
  destruct (eq_str schedule_type "daily").
  { apply frames_bind; [auto with frames|]. intros [h m]. auto with frames. }
  destruct (eq_str schedule_type "weekly"); [|auto with frames].
  destruct schedule_time as [| | |str| |]; auto with frames.
  destruct (split str) as [|day [|time [|]]]; auto with frames.
  destruct (weekday_attr (lower day)); [|auto with frames].
  apply frames_bind; [auto with frames|]. intros [h m]. auto with frames.
Qed.

(** [schedule_task] does not read the enabled key: setting it in one task
    changes nothing in what any call does. *)
Lemma schedule_task_set_enabled (s : state) (l : list pyval) (i0 : nat)
    (d : list (string * pyval)) (v : pyval) (i : nat) :
  tasks s = PList l → l !! i0 = Some (PDict d) →
  let T := PList (<[i0 := PDict (dict_set "enabled" v d)]> l) in
  schedule_task i (set_tasks T s)
  = (let '(r, s') := schedule_task i s in (r, set_tasks T s')).
Proof.
  intros Ht Hi T. unfold schedule_task, the_task, mbind, M_bind, get.
  cbn -[schedule_task_body]. rewrite Ht. destruct (decide (i = i0)) as [->|Hne].
  - rewrite list_lookup_insert_eq by (by eapply lookup_lt_Some). rewrite Hi.
    unfold mret, M_ret.
    assert (schedule_task_body i0 (dict_set "enabled" v d)
            = schedule_task_body i0 d) as ->.
    { unfold schedule_task_body, subscript. by rewrite !dict_get_set_ne. }
    apply frames_schedule_task_body.
  - rewrite list_lookup_insert_ne by done.
    destruct (l !! i) as [[| | | | |d0]|]; try done.
    unfold mret, M_ret. apply frames_schedule_task_body.
Qed.

Lemma schedule_task_tasks (i : nat) (s : state) :
  tasks (schedule_task i s).2 = tasks s.
Proof.
  destruct (schedule_task_cases i s) as [H|[[e H]|[r H]]]; by rewrite H.
Qed.

Lemma simulates_bind {A B} (T : pyval) (P : state → Prop)
    (m' m : M A) (f' f : A → M B) :
  simulates T P m' m → (∀ x, simulates T P (f' x) (f x)) →
  simulates T P (m' ≫= f') (m ≫= f).
Proof.
  intros Hm Hf s Hs. unfold mbind, M_bind.
  destruct (Hm s Hs) as [-> HP].
  destruct (m s) as [[e|x] s']; [done|]. by apply Hf.
Qed.

Lemma simulates_frames {A} (T : pyval) (P : state → Prop) (m : M A) :
  frames_tasks m → (∀ s, P s → P (m s).2) → simulates T P m m.
Proof. intros Hm HP s Hs. split; [apply Hm | by apply HP]. Qed.

(** The [for] loop of [run] does the same on a task list in which missing
    enabled keys were filled in as true. *)
Lemma schedule_all_set_enabled (l : list pyval) (i0 : nat)
    (d0 : list (string * pyval)) (rest rest' : list pyval) (i : nat) :
  l !! i0 = Some (PDict d0) →
  Forall2 enabled_made_explicit rest rest' →
  simulates (PList (<[i0 := PDict (dict_set "enabled" (PBool true) d0)]> l))
    (λ s, tasks s = PList l) (schedule_all rest' i) (schedule_all rest i).
Proof.
  intros Hi HF. set (T := PList _). set (P := λ s, tasks s = PList l).
  revert i. induction HF as [|v v' rest rest' Hv HF IH]; intros i.
  { by apply simulates_frames. }
  assert (Htask : simulates T P (schedule_task i) (schedule_task i)).
  { intros s Hs. split; [by apply schedule_task_set_enabled|].
    unfold P. by rewrite schedule_task_tasks. }
  assert (Hturn : ∀ d d',
    truthy (default (PBool true) (dict_get "enabled" d'))
    = truthy (default (PBool true) (dict_get "enabled" d)) →
    dict_get "name" d' = dict_get "name" d →
    simulates T P (schedule_all (PDict d' :: rest') i)
      (schedule_all (PDict d :: rest) i)).
  { intros d d' Hflag Hname. simpl. rewrite Hflag. clear Hflag.
    apply simulates_bind; [|intros _; apply IH].
    destruct (truthy _); [|by apply simulates_frames].
    apply simulates_bind; [done|]. intros _.
    unfold subscript. rewrite Hname.
    apply simulates_frames; [|by intros s; destruct (dict_get "name" d)].
    apply frames_bind; [apply frames_subscript | auto with frames]. }
  destruct Hv as [->|(d & -> & Hnone & ->)].
  - destruct v as [| | | | |d]; try (by apply simulates_frames).
    by apply Hturn.
  - apply Hturn.
    + by rewrite dict_get_set_eq, Hnone.
    + by apply dict_get_set_ne.
Qed.

(** C10 (amended). A task record without an enabled key passes the test
    of [run] and is scheduled: the whole start-up of [run] does, step for
    step, what it does on the same task list with enabled=true written into
    that record (same result, same jobs, same output).  A record that has
    the key is passed over exactly when its value is false by Python's
    truth test: false, null, 0, the empty string, the empty list or the
    empty object. *)
Theorem missing_enabled_means_enabled (s : state) (l : list pyval) (i : nat)
    (d : list (string * pyval)) :
  tasks s = PList l → l !! i = Some (PDict d) →
  dict_get "enabled" d = None →
  let T := PList (<[i := PDict (dict_set "enabled" (PBool true) d)]> l) in
  let turn k d' : M unit :=
    schedule_task k;; name ← subscript d' "name"; print (LScheduled name) in
  schedule_enabled (set_tasks T s)
  = (let '(r, s') := schedule_enabled s in (r, set_tasks T s'))
  ∧ (∀ rest k s0,
       schedule_all (PDict d :: rest) k s0
       = (turn k d;; schedule_all rest (S k)) s0)
  ∧ (∀ d' v rest k s0,
       dict_get "enabled" d' = Some v →
       schedule_all (PDict d' :: rest) k s0
       = if truthy v then (turn k d';; schedule_all rest (S k)) s0
         else schedule_all rest (S k) s0)
  ∧ (∀ v, truthy v = false
          ↔ v = PNone ∨ v = PBool false ∨ v = PInt 0 ∨ v = PStr EmptyString
            ∨ v = PList [] ∨ v = PDict []).
Proof.
  intros Ht Hi Hnone T turn. split; [|split; [|split]].
  - unfold schedule_enabled, mbind at 1 3, M_bind at 1 3, print, modify.
    unfold mbind, M_bind, get. cbn. rewrite Ht.
    assert (HF : Forall2 enabled_made_explicit l
                   (<[i := PDict (dict_set "enabled" (PBool true) d)]> l)).
    { rewrite <- (list_insert_id l i (PDict d) Hi) at 1.
      apply Forall2_insert.
      + apply Forall_Forall2_diag, Forall_forall. intros v _. by left.
      + right. by exists d. }
    by destruct (schedule_all_set_enabled l i d l _ 0 Hi HF
                   (set_out (out s ++ [LStarted]) s) Ht) as [H _].
  - intros rest k s0. simpl. by rewrite Hnone.
  - intros d' v rest k s0 Hv. simpl. rewrite Hv. simpl. by destruct (truthy v).
  - intros v. split.
    + destruct v as [|[]|z|str|[|]|[|]]; simpl; try done; eauto 10.
      * intros Hz%negb_false_iff%Z.eqb_eq. subst. eauto 10.
      * destruct str; simpl; [eauto 10|done].
    + intros [->|[->|[->|[->|[->| ->]]]]]; done.
Qed.

(** *** The start-up scan, task by task *)

(** One turn of the [for] loop on a task that passed the test: it raises,
    or prints; either way at most one job was added. *)
Lemma schedule_turn_cases (i : nat) (d : list (string * pyval)) (s : state) :
  let turn : M unit :=
    schedule_task i;; name ← subscript d "name"; print (LScheduled name) in
  ∃ sx, (sx = s ∨ ∃ r, sx = registered i r s)
        ∧ ((∃ e, turn s = (inl e, sx))
           ∨ ∃ name, dict_get "name" d = Some name
                     ∧ turn s = (inr tt, set_out (out sx ++ [LScheduled name]) sx)).
Proof.
  intros turn. unfold turn, mbind, M_bind, subscript, print, modify, raise.
  destruct (schedule_task_cases i s) as [H|[[e H]|[r H]]]; rewrite H.
  - exists s. split; [by left|].
    destruct (dict_get "name" d) as [name|]; [right|left]; eauto.
  - exists s. split; [by left|]. left. eauto.
  - exists (registered i r s). split; [right; eauto|].
    destruct (dict_get "name" d) as [name|]; [right|left]; eauto.
Qed.

Lemma bind_assoc {A B C} (m : M A) (f : A → M B) (g : B → M C) (s : state) :
  ((m ≫= f) ≫= g) s = (m ≫= λ x, f x ≫= g) s.
Proof. unfold mbind, M_bind. by destruct (m s) as [[e|x] s1]. Qed.

Lemma bind_ext {A B} (m : M A) (f g : A → M B) (s : state) :
  (∀ x s1, f x s1 = g x s1) → (m ≫= f) s = (m ≫= g) s.
Proof. intros H. unfold mbind, M_bind. by destruct (m s) as [[e|x] s1]. Qed.

Lemma schedule_all_app (a b : list pyval) (i : nat) (s : state) :
  schedule_all (a ++ b) i s
  = (schedule_all a i;; schedule_all b (i + List.length a)) s.
Proof.
  revert i s. induction a as [|v a IH]; intros i s.
  - simpl. unfold mbind, M_bind, mret, M_ret. by rewrite Nat.add_0_r.
  - simpl. destruct v as [| | | | |d]; try done.
    rewrite bind_assoc. apply bind_ext. intros _ s1.
    rewrite IH. by rewrite Nat.add_succ_r.
Qed.

(** What the scan leaves, whether it gets through or raises: only the job
    table and the output have changed, the new jobs refer to distinct
    elements of the scanned list, each a dict that passed the test. *)
Lemma schedule_all_shape (rest : list pyval) (i : nat) (s s' : state)
    (res : exn + unit) :
  schedule_all rest i s = (res, s') →
  ∃ new,
    config_file s' = config_file s ∧ tasks s' = tasks s ∧ fs s' = fs s
    ∧ clock s' = clock s
    ∧ jobs s' = jobs s ++ new
    ∧ Forall (λ j, (i ≤ job_task j)%nat
                   ∧ ∃ v, rest !! (job_task j - i)%nat = Some v
                          ∧ enabled_dict v = true) new
    ∧ NoDup (job_task <$> new).
Proof.
  revert i s. induction rest as [|v rest IH]; intros i s Hrun.
  { exists []. simpl in Hrun. unfold mret, M_ret in Hrun. simplify_eq.
    rewrite app_nil_r. repeat split; [done|constructor]. }
  assert (Hnone : s' = s → ∃ new,
    config_file s' = config_file s ∧ tasks s' = tasks s ∧ fs s' = fs s
    ∧ clock s' = clock s ∧ jobs s' = jobs s ++ new
    ∧ Forall (λ j, (i ≤ job_task j)%nat
                   ∧ ∃ v0, (v :: rest) !! (job_task j - i)%nat = Some v0
                           ∧ enabled_dict v0 = true) new
    ∧ NoDup (job_task <$> new)).
  { intros ->. exists []. rewrite app_nil_r. repeat split; [done|constructor]. }
  assert (Hshift : ∀ new, Forall (λ j, (S i ≤ job_task j)%nat
                   ∧ ∃ v0, rest !! (job_task j - S i)%nat = Some v0
                           ∧ enabled_dict v0 = true) new →
     Forall (λ j, (i ≤ job_task j)%nat
                   ∧ ∃ v0, (v :: rest) !! (job_task j - i)%nat = Some v0
                           ∧ enabled_dict v0 = true) new).
  { intros new Hnew. eapply Forall_impl; [exact Hnew|].
    intros j (Hle & v0 & Hv0 & Hen).
    split; [lia|]. exists v0. split; [|done].
    replace (job_task j - i)%nat with (S (job_task j - S i)) by lia. done. }
  simpl schedule_all in Hrun.
  destruct v as [| | | | |d]; try (apply Hnone; unfold raise in Hrun; congruence).
  destruct (truthy (default (PBool true) (dict_get "enabled" d))) eqn:Hen.
  2: { unfold mbind, M_bind, mret, M_ret in Hrun.
       destruct (IH (S i) s Hrun) as (new & H1 & H2 & H3 & H4 & H5 & H6 & H7).
       exists new. repeat (split; [done|]). split; [by apply Hshift | done]. }
  unfold mbind at 1, M_bind at 1 in Hrun.
  destruct (schedule_turn_cases i d s) as (sx & Hsx & [[e Hturn]|(name & _ & Hturn)]);
    cbv zeta in Hturn; rewrite Hturn in Hrun.
  - simplify_eq. destruct Hsx as [->|[r ->]]; [by apply Hnone|].
    exists [{| job_task := i; job_rule := r; next_run := next_fire r (clock s);
               last_run := None |}].
    simpl. repeat (split; [done|]). split.
    + apply Forall_singleton. simpl. split; [lia|]. exists (PDict d).
      by rewrite Nat.sub_diag.
    + apply NoDup_singleton.
  - destruct (IH (S i) _ Hrun) as (new & H1 & H2 & H3 & H4 & H5 & H6 & H7).
    simpl in H1, H2, H3, H4, H5.
    destruct Hsx as [->|[r ->]].
    + exists new. repeat (split; [done|]). split; [by apply Hshift | done].
    + exists ({| job_task := i; job_rule := r; next_run := next_fire r (clock s);
                 last_run := None |} :: new).
      simpl in *. rewrite H1, H2, H3, H4, H5, <- app_assoc.
      repeat (split; [done|]). split.
      * apply Forall_cons. split; [|by apply Hshift].
        simpl. split; [lia|]. exists (PDict d). by rewrite Nat.sub_diag.
      * apply NoDup_cons. split; [|done]. intros (j & Hj & Hin)%list_elem_of_fmap.
        rewrite Forall_forall in H6. apply H6 in Hin as [Hle _]. simpl in Hj. lia.
Qed.

Lemma bind_ok {A B} (m : M A) (f : A → M B) (s s1 : state) (x : A) :
  m s = (inr x, s1) → (m ≫= f) s = f x s1.
Proof. intros H. unfold mbind, M_bind. by rewrite H. Qed.

Lemma bind_err {A B} (m : M A) (f : A → M B) (s s1 : state) (e : exn) :
  m s = (inl e, s1) → (m ≫= f) s = (inl e, s1).
Proof. intros H. unfold mbind, M_bind. by rewrite H. Qed.

Lemma init_eq (p text : string) (s : state) :
  fs s !! p = Some text →
  __init__ p s
  = match json_loads text with
    | Some v => (inr tt, set_tasks v (set_config_file p s))
    | None => (inl JSONDecodeError, set_config_file p s)
    end.
Proof.
  intros Hfs. unfold __init__, load_tasks, mbind, M_bind, modify, get. cbn.
  rewrite Hfs. by destruct (json_loads text).
Qed.

Lemma schedule_enabled_frame (s s' : state) (res : exn + unit) :
  schedule_enabled s = (res, s') →
  config_file s' = config_file s ∧ tasks s' = tasks s ∧ fs s' = fs s
  ∧ clock s' = clock s.
Proof.
  unfold schedule_enabled, mbind, M_bind, print, modify, get. cbn.
  destruct (tasks s) as [| | |str|l|[|]] eqn:Ht; unfold raise, mret, M_ret;
    try (intros [= <- <-]; by rewrite ?Ht).
  - destruct (negb _); intros [= <- <-]; by rewrite ?Ht.
  - intros (new & H1 & H2 & H3 & H4 & _)%schedule_all_shape.
    simpl in *. by rewrite H2, Ht.
Qed.

(** X1. When the storage file exists, start-up (the [__main__] block up
    to the poll loop) leaves the whole file system as it found it, whether
    loading or scheduling succeeds or raises: the example list is written
    only over a missing file.  A file that loads becomes the task list. *)
Theorem startup_keeps_existing_file (s : state) (text : string) :
  fs s !! "tasks.json" = Some text →
  fs (main 0 s).2 = fs s
  ∧ ∀ v, json_loads text = Some v → tasks (main 0 s).2 = v.
Proof.
  intros Hfs. unfold main. pose proof (init_eq "tasks.json" text s Hfs) as Hinit.
  destruct (json_loads text) as [v|].
  2: { rewrite (bind_err _ _ _ _ _ Hinit). by split. }
  rewrite (bind_ok _ _ _ _ _ Hinit).
  rewrite (bind_ok get _ _ _ _ eq_refl). cbn -[run]. rewrite Hfs.
  rewrite (bind_ok (mret tt) _ _ _ tt eq_refl).
  unfold run, mbind, M_bind.
  destruct (schedule_enabled _) as [[e|[]] s1] eqn:Hscan;
    apply schedule_enabled_frame in Hscan as (_ & Ht & Hf & _);
    simpl in *; (split; [done|]); by intros ? [= <-].
Qed.

(** X2. [schedule_task] has no [else]: a task whose schedule_type is none
    of the four is appended and saved by [add_task], which then returns
    normally without registering any job. *)
Theorem unknown_schedule_type_is_ignored (s : state) (l : list pyval)
    (name command schedule_type schedule_time : string) :
  tasks s = PList l →
  is_schedule_type schedule_type = false →
  let task := new_task name command schedule_type schedule_time in
  add_task name command schedule_type schedule_time s
  = (inr tt, added task l s)
  ∧ jobs (added task l s) = jobs s
  ∧ fs (added task l s) !! config_file s
    = Some (json_dumps (PList (l ++ [task]))).
Proof.
  intros Ht Hty task. split; [|split; [done|by apply lookup_insert_eq]].
  rewrite (add_task_eq s l _ _ _ _ Ht). fold task.
  unfold schedule_task, mbind at 1, M_bind at 1.
  rewrite (the_task_eq (added task l s) (l ++ [task]) _ _ eq_refl
             (list_lookup_middle l [] _ _ eq_refl)).
  unfold is_schedule_type in Hty.
  apply orb_false_iff in Hty as [[[H1 H2]%orb_false_iff H3]%orb_false_iff H4].
  unfold schedule_task_body, mbind, M_bind, subscript. simpl.
  by rewrite H1, H2, H3, H4.
Qed.

(** X3. A storage file that holds a non-empty JSON object loads without
    error; the failure comes later: [run] raises [AttributeError] on the
    first key before registering anything, and [add_task] raises
    [AttributeError] before saving anything. *)
Theorem json_object_storage_breaks_later (s : state) (text k : string)
    (v : pyval) (d : list (string * pyval)) (n : nat) :
  fs s !! "tasks.json" = Some text →
  json_loads text = Some (PDict ((k, v) :: d)) →
  let s1 := set_tasks (PDict ((k, v) :: d)) (set_config_file "tasks.json" s) in
  __init__ "tasks.json" s = (inr tt, s1)
  ∧ main n s = (inl (AttributeError "get"), set_out (out s ++ [LStarted]) s1)
  ∧ ∀ name command schedule_type schedule_time,
      add_task name command schedule_type schedule_time s1
      = (inl (AttributeError "append"), s1).
Proof.
  intros Hfs Hjson s1.
  assert (Hinit : __init__ "tasks.json" s = (inr tt, s1)).
  { unfold __init__, load_tasks, mbind, M_bind, modify, get. cbn.
    by rewrite Hfs, Hjson. }
  split; [done|]. split; [|done].
  unfold main. unfold mbind at 1, M_bind at 1. rewrite Hinit.
  unfold mbind at 1, M_bind at 1, get. unfold mbind at 1, M_bind at 1.
  cbn -[run]. by rewrite Hfs.
Qed.

Lemma added_jobs_ok (s : state) (l : list pyval) (task : pyval) :
  tasks s = PList l → jobs_ok s = true → jobs_ok (added task l s) = true.
Proof.
  intros Ht Hok. apply jobs_ok_spec. apply jobs_ok_spec in Hok.
  eapply Forall_impl; [exact Hok|].
  intros j (l0 & d & name & Ht0 & Hj & Hname).
  assert (l0 = l) as -> by congruence.
  exists (l ++ [task]), d, name. split; [done|]. split; [|done].
  by apply lookup_app_l_Some.
Qed.

(** X4. [add_task] keeps the job table well formed: after it, whether it
    returned or raised, every job still refers to a named dict of the task
    list.  The list has grown by exactly the new task and the table by at
    most one job. *)
Theorem add_task_keeps_job_table (s : state) (l : list pyval)
    (name command schedule_type schedule_time : string) :
  tasks s = PList l → jobs_ok s = true →
  let s' := (add_task name command schedule_type schedule_time s).2 in
  jobs_ok s' = true
  ∧ tasks s' = PList (l ++ [new_task name command schedule_type schedule_time])
  ∧ (jobs s' = jobs s ∨ ∃ j, jobs s' = jobs s ++ [j]
                             ∧ job_task j = List.length l).
Proof.
  intros Ht Hok s'. unfold s'. rewrite (add_task_eq s l _ _ _ _ Ht).
  set (task := new_task _ _ _ _).
  pose proof (added_jobs_ok s l task Ht Hok) as Hok1.
  destruct (schedule_task_cases (List.length l) (added task l s))
    as [H|[[e H]|[r H]]]; rewrite H; simpl; try (by eauto).
  split; [|split; [done|right; eauto]].
  apply jobs_ok_spec. simpl. apply Forall_app. split.
  - apply jobs_ok_spec in Hok1. eapply Forall_impl; [exact Hok1|].
    by intros j (l0 & d & nm & ? & ? & ?); exists l0, d, nm.
  - apply Forall_singleton. eexists (l ++ [task]), _, (PStr name).
    split; [done|]. split; [by apply list_lookup_middle|done].
Qed.

(** X5. The [for] loop of [run] stops at the first element that is not a
    dict: the state is the one the elements before it led to (their jobs
    stay registered), the result is an error, and nothing after the
    element is looked at. *)
Theorem scan_stops_at_malformed_task (a b : list pyval) (v : pyval)
    (i : nat) (s : state) :
  (∀ d, v ≠ PDict d) →
  schedule_all (a ++ v :: b) i s
  = (schedule_all a i;; raise (AttributeError "get")) s
  ∧ (schedule_all (a ++ v :: b) i s).2 = (schedule_all a i s).2
  ∧ (schedule_all (a ++ v :: b) i s).1 ≠ inr tt.
Proof.
  intros Hv.
  assert (Heq : schedule_all (a ++ v :: b) i s
                = (schedule_all a i;; raise (AttributeError "get")) s).
  { rewrite schedule_all_app. apply bind_ext. intros _ s1. simpl.
    destruct v as [| | | | |d]; try done. by destruct (Hv d). }
  split; [done|]. rewrite Heq. unfold mbind, M_bind, raise.
  by destruct (schedule_all a i s) as [[e|[]] s1].
Qed.

(** X6. A task that passes the test and has a valid schedule but no name
    is registered first; the [print] after it then raises [KeyError], so
    [run] stops with that job in the table. *)
Theorem nameless_task_is_registered_before_run_raises (s : state)
    (l rest : list pyval) (i : nat) (d : list (string * pyval))
    (schedule_type schedule_time : string) (r : rule) :
  tasks s = PList l → l !! i = Some (PDict d) →
  enabled_dict (PDict d) = true →
  dict_get "schedule_type" d = Some (PStr schedule_type) →
  dict_get "schedule_time" d = Some (PStr schedule_time) →
  grammar schedule_type schedule_time = Some r →
  dict_get "name" d = None →
  schedule_all (PDict d :: rest) i s = (inl (KeyError "name"), registered i r s).
Proof.
  intros Ht Hi Hen Hty Htime Hg Hname. simpl in *. rewrite Hen.
  unfold mbind, M_bind.
  rewrite (schedule_task_grammar s l i d _ _ r Ht Hi Hty Htime Hg).
  unfold subscript. by rewrite Hname.
Qed.

(** X7. A firing that does not get through its [try] block (the task has
    no command, or the command cannot be started) returns normally, leaves
    the task list as it was and writes no file: the file system is the one
    the command left, or the one before when no command was run. *)
Theorem unsuccessful_firing_writes_nothing (s : state) (l : list pyval)
    (i : nat) (d : list (string * pyval)) (name : pyval) :
  tasks s = PList l → l !! i = Some (PDict d) →
  dict_get "name" d = Some name →
  (dict_get "command" d = None
   ∨ ∃ c e, dict_get "command" d = Some c
            ∧ result (shell c (clock s) (fs s)) = Failed e) →
  ∃ s' e,
    job i s = (inr tt, s')
    ∧ tasks s' = tasks s
    ∧ jobs s' = jobs s
    ∧ fs s' = match dict_get "command" d with
              | Some c => files (shell c (clock s) (fs s))
              | None => fs s
              end
    ∧ out s' = out s ++ [LRunning (clock s) name] ++ [LTaskError name e].
Proof.
  intros Ht Hi Hname Hbad. exists (after_job l i d name s).
  rewrite (job_eq s l i d name Ht Hi Hname). unfold after_job.
  destruct Hbad as [Hcmd|(c & e & Hcmd & Hres)]; rewrite Hcmd; cbn.
  - exists (KeyError "command"). by rewrite <- app_assoc.
  - rewrite Hres. exists e. cbn. by rewrite <- app_assoc.
Qed.

(** X8. [save_tasks] followed by [load_tasks] gives back the task list in
    memory, provided the JSON module reads back that document; and
    [save_tasks] changes no file but the configured one. *)
Theorem save_then_load (s : state) :
  json_loads (json_dumps (tasks s)) = Some (tasks s) →
  (save_tasks;; load_tasks) s = (inr (tasks s), (save_tasks s).2)
  ∧ ∀ p, p ≠ config_file s → fs (save_tasks s).2 !! p = fs s !! p.
Proof.
  intros Hjson. unfold mbind at 1, M_bind at 1. rewrite save_tasks_eq. split.
  - unfold load_tasks, mbind, M_bind, get. cbn.
    by rewrite lookup_insert_eq, Hjson.
  - intros p Hp. cbn. by rewrite lookup_insert_ne.
Qed.

(** *** The poll loop and the task list *)

Lemma run_pending_idle (s : state) :
  (∀ j, j ∈ jobs s → clock s < next_run j) → run_pending s = (inr tt, s).
Proof.
  intros Hlate. unfold run_pending, mbind, M_bind, get.
  assert (due_jobs s = []) as ->; [|done].
  apply elem_of_nil_inv. intros k (j & Hk & Hdue)%due_jobs_spec.
  apply list_elem_of_lookup_2, Hlate in Hk.
  unfold should_run in Hdue. apply Z.leb_le in Hdue. lia.
Qed.

(** X9. While no job is due, the poll loop does nothing but let the clock
    advance by one second per round: when every job's next run time is at
    least [n] seconds away, [n] rounds run no command, print nothing and
    write nothing. *)
Theorem no_firing_before_due (n : nat) (s : state) :
  (∀ j, j ∈ jobs s → clock s + Z.of_nat n <= next_run j) →
  poll n s = (inr tt, set_clock (clock s + Z.of_nat n) s).
Proof.
  revert s. induction n as [|n IH]; intros s Hlate.
  - simpl. unfold mret, M_ret. rewrite Z.add_0_r. by destruct s.
  - assert (clock s + Z.of_nat (S n) = clock s + 1 + Z.of_nat n) as Hn by lia.
    rewrite Hn. simpl.
    rewrite (bind_ok run_pending _ s s tt).
    2: { apply run_pending_idle. intros j Hj. apply Hlate in Hj. lia. }
    unfold mbind, M_bind, sleep, modify. rewrite IH; [done|].
    intros j Hj. simpl in *. apply Hlate in Hj. lia.
Qed.

Lemma agree_off_last_run_trans (u v w : pyval) :
  agree_off_last_run u v → agree_off_last_run v w → agree_off_last_run u w.
Proof.
  intros [->|(d & d' & -> & -> & H1)] [->|(e & e' & He & -> & H2)];
    [by left | right; eauto | right; eauto |].
  simplify_eq. right. exists d, e'. repeat split; try done.
  intros k Hk. by rewrite H2, H1.
Qed.

Lemma same_tasks_trans (T1 T2 T3 : pyval) :
  same_tasks T1 T2 → same_tasks T2 T3 → same_tasks T1 T3.
Proof.
  intros [->|(l & l' & -> & -> & H1)] [->|(m & m' & Hm & -> & H2)];
    [by left | right; eauto | right; eauto |].
  simplify_eq. right. exists l, m'. repeat split; try done.
  eapply Forall2_trans; [|exact H1|exact H2]. apply agree_off_last_run_trans.
Qed.

(** Running one job: what changes is the clock, the files, the output, the
    value of last_run in one task and the run times of that job. *)
Lemma run_job_frame (k : nat) (s : state) :
  jobs_ok s = true →
  ∃ s', run_job k s = (inr tt, s')
        ∧ jobs_ok s' = true
        ∧ config_file s' = config_file s
        ∧ clock s <= clock s'
        ∧ same_tasks (tasks s) (tasks s')
        ∧ job_task <$> jobs s' = job_task <$> jobs s
        ∧ job_rule <$> jobs s' = job_rule <$> jobs s.
Proof.
  intros Hok.
  destruct (run_job_ok k s Hok) as (s' & Hrun & Hok' & Hclk & Hjobs).
  exists s'. split; [done|]. split; [done|].
  destruct (jobs s !! k) as [j|] eqn:Hk.
  2: { subst s'. repeat split; try done; try lia; by left. }
  assert (Hmap : ∀ {B} (f : Job → B), f (rescheduled j (clock s')) = f j →
                 f <$> jobs s' = f <$> jobs s).
  { intros B f Hf. rewrite Hjobs, list_fmap_insert, Hf.
    apply list_insert_id. by rewrite list_lookup_fmap, Hk. }
  pose proof Hok as Hall%jobs_ok_spec.
  pose proof (Forall_lookup_1 _ _ _ _ Hall Hk) as (l & d & name & Ht & Hi & Hname).
  assert (Hs' : s' = set_jobs (jobs s')
                       (after_job l (job_task j) d name s)).
  { unfold run_job in Hrun. rewrite (bind_ok get _ s s s eq_refl) in Hrun.
    rewrite Hk in Hrun.
    rewrite (bind_ok _ _ _ _ _ (job_eq s l _ d name Ht Hi Hname)) in Hrun.
    unfold mbind, M_bind, now, modify in Hrun. by injection Hrun as <-. }
  destruct (after_job_frame s l _ d name Ht Hi) as (Hcfg & _ & _ & d' & Ht' & Hd').
  rewrite Hs'. cbn. rewrite Hs' in Hclk. cbn in Hclk.
  split; [done|]. split; [done|].
  split; [|split; by apply Hmap].
  rewrite Ht, Ht'. right. exists l, (<[job_task j := PDict d']> l).
  split; [done|]. split; [done|].
  rewrite <- (list_insert_id l (job_task j) (PDict d) Hi) at 1.
  apply Forall2_insert.
  - apply Forall_Forall2_diag, Forall_forall. intros v _. by left.
  - right. by exists d, d'.
Qed.

Lemma run_jobs_frame (ks : list nat) (s : state) :
  jobs_ok s = true →
  ∃ s', run_jobs ks s = (inr tt, s')
        ∧ jobs_ok s' = true
        ∧ config_file s' = config_file s
        ∧ clock s <= clock s'
        ∧ same_tasks (tasks s) (tasks s')
        ∧ job_task <$> jobs s' = job_task <$> jobs s
        ∧ job_rule <$> jobs s' = job_rule <$> jobs s.
Proof.
  revert s. induction ks as [|k ks IH]; intros s Hok.
  { exists s. simpl. repeat split; try done; try lia; by left. }
  destruct (run_job_frame k s Hok) as (s1 & Hrun & Hok1 & Hc1 & Hk1 & Ht1 & Hj1 & Hr1).
  destruct (IH s1 Hok1) as (s' & Hrest & Hok' & Hc' & Hk' & Ht' & Hj' & Hr').
  exists s'. simpl. rewrite (bind_ok _ _ _ _ _ Hrun).
  split; [done|]. split; [done|]. split; [congruence|]. split; [lia|].
  split; [by eapply same_tasks_trans|]. split; congruence.
Qed.

Lemma poll_changes_last_run_only_aux (n : nat) (s : state) :
  jobs_ok s = true →
  ∃ s', poll n s = (inr tt, s')
        ∧ jobs_ok s' = true
        ∧ config_file s' = config_file s
        ∧ clock s + Z.of_nat n <= clock s'
        ∧ same_tasks (tasks s) (tasks s')
        ∧ job_task <$> jobs s' = job_task <$> jobs s
        ∧ job_rule <$> jobs s' = job_rule <$> jobs s.
Proof.
  revert s. induction n as [|n IH]; intros s Hok.
  { exists s. simpl. repeat split; try done; try lia; by left. }
  destruct (run_jobs_frame (due_jobs s) s Hok)
    as (s1 & Hrun & Hok1 & Hc1 & Hk1 & Ht1 & Hj1 & Hr1).
  assert (Hpend : run_pending s = (inr tt, s1)).
  { unfold run_pending. by rewrite (bind_ok get _ s s s eq_refl). }
  assert (Hok2 : jobs_ok (set_clock (clock s1 + 1) s1) = true) by done.
  destruct (IH _ Hok2) as (s' & Hpoll & Hok' & Hc' & Hk' & Ht' & Hj' & Hr').
  exists s'. simpl. rewrite (bind_ok _ _ _ _ _ Hpend).
  unfold mbind, M_bind, sleep, modify. simpl in *.
  split; [done|]. split; [done|]. split; [congruence|]. split; [lia|].
  split; [by eapply same_tasks_trans|]. split; congruence.
Qed.

(** X10. However many rounds the poll loop makes and whatever the
    commands do, it never raises on a well-formed job table and changes
    nothing in the task list but last_run values: the list keeps its
    length and order, every task keeps every other key, and every job
    keeps its task and its rule. *)
Theorem poll_changes_last_run_only (n : nat) (s : state) :
  jobs_ok s = true →
  ∃ s', poll n s = (inr tt, s')
        ∧ config_file s' = config_file s
        ∧ clock s + Z.of_nat n <= clock s'
        ∧ same_tasks (tasks s) (tasks s')
        ∧ job_task <$> jobs s' = job_task <$> jobs s
        ∧ job_rule <$> jobs s' = job_rule <$> jobs s.
Proof.
  intros Hok.
  destruct (poll_changes_last_run_only_aux n s Hok)
    as (s' & H1 & _ & H2 & H3 & H4 & H5 & H6).
  exists s'. by repeat (split; [done|]).
Qed.

(** *** What [run] schedules *)

Lemma scan_enabled_once (s s1 : state) (res : exn + unit) :
  jobs s = [] → schedule_enabled s = (res, s1) →
  Forall (refers_to_enabled s1) (jobs s1) ∧ NoDup (job_task <$> jobs s1).
Proof.
  intros Hjobs. unfold schedule_enabled, mbind, M_bind, print, modify, get. cbn.
  assert (Hnil : ∀ s0, jobs s0 = [] →
            Forall (refers_to_enabled s0) (jobs s0) ∧ NoDup (job_task <$> jobs s0)).
  { intros s0 ->. split; constructor. }
  destruct (tasks s) as [| | |str|l|[|]] eqn:Ht; unfold raise, mret, M_ret;
    try (intros [= <- <-]; by apply Hnil).
  - destruct (negb _); intros [= <- <-]; by apply Hnil.
  - intros (new & _ & Ht1 & _ & _ & Hj & Hnew & Hnd)%schedule_all_shape.
    simpl in *. rewrite Hjobs in Hj. simpl in Hj. rewrite Hj. split; [|done].
    eapply Forall_impl; [exact Hnew|]. intros j (_ & v & Hv & Hen).
    exists v. split; [|done]. unfold task_at. rewrite Ht1, Ht.
    by rewrite Nat.sub_0_r in Hv.
Qed.

Lemma enabled_dict_agree (v v' : pyval) :
  agree_off_last_run v v' → enabled_dict v' = enabled_dict v.
Proof.
  intros [->|(d & d' & -> & -> & H)]; [done|]. simpl. by rewrite H.
Qed.

Lemma task_at_same_tasks (s s' : state) (i : nat) (v : pyval) :
  same_tasks (tasks s) (tasks s') → task_at i s = Some v →
  ∃ v', task_at i s' = Some v' ∧ agree_off_last_run v v'.
Proof.
  unfold task_at. intros [->|(l & l' & -> & -> & HF)] Hi.
  - exists v. split; [done|by left].
  - by apply (Forall2_lookup_l _ _ _ _ _ HF Hi).
Qed.

(** The state [run] ends in is the one of its scan when that raised, and
    one the poll loop leads to from a well-formed table otherwise. *)
Lemma run_cases (n : nat) (s : state) :
  jobs s = [] →
  ∃ res s1, schedule_enabled s = (res, s1)
    ∧ ((run n s).2 = s1
       ∨ same_tasks (tasks s1) (tasks (run n s).2)
         ∧ job_task <$> jobs (run n s).2 = job_task <$> jobs s1).
Proof.
  intros Hjobs. unfold run.
  destruct (schedule_enabled s) as [[e|[]] s1] eqn:Hscan;
    [exists (inl e), s1 | exists (inr tt), s1]; (split; [done|]).
  - left. by rewrite (bind_err _ _ _ _ _ Hscan).
  - right. rewrite (bind_ok _ _ _ _ _ Hscan).
    destruct (poll_changes_last_run_only_aux n s1
                (schedule_enabled_ok s s1 Hjobs Hscan))
      as (s' & -> & _ & _ & _ & Ht & Hj & _). done.
Qed.

(** X11. Started on an empty job table, [run] never has a job for a task
    that fails the test [task.get('enabled', True)], neither after its
    scan nor after any number of poll rounds, whether it returns or
    raises: every job refers to a dict whose enabled key is absent or
    true-like. *)
Theorem run_never_schedules_disabled (n : nat) (s : state) :
  jobs s = [] →
  Forall (refers_to_enabled (run n s).2) (jobs (run n s).2).
Proof.
  intros Hjobs.
  destruct (run_cases n s Hjobs) as (res & s1 & Hscan & [->|[Ht Hj]]);
    destruct (scan_enabled_once s s1 res Hjobs Hscan) as [Hen _]; [done|].
  apply Forall_lookup. intros k j' Hk.
  assert (Hk1 : (job_task <$> jobs s1) !! k = Some (job_task j'))
    by (by rewrite <- Hj, list_lookup_fmap, Hk).
  rewrite list_lookup_fmap in Hk1.
  apply fmap_Some in Hk1 as (j1 & Hj1 & Heq).
  destruct (Forall_lookup_1 _ _ _ _ Hen Hj1) as (v & Hv & Hv').
  rewrite <- Heq in Hv.
  destruct (task_at_same_tasks s1 _ _ v Ht Hv) as (v' & Hat & Hag).
  exists v'. split; [done|]. by rewrite (enabled_dict_agree v v' Hag).
Qed.

(** X12. Started on an empty job table, [run] never holds two jobs for
    the same task: the scan registers each list element at most once and
    the poll loop adds no job. *)
Theorem run_schedules_each_task_once (n : nat) (s : state) :
  jobs s = [] →
  NoDup (job_task <$> jobs (run n s).2).
Proof.
  intros Hjobs.
  destruct (run_cases n s Hjobs) as (res & s1 & Hscan & [->|[_ ->]]);
    by destruct (scan_enabled_once s s1 res Hjobs Hscan).
Qed.

(** X13. [add_task] registers the new task at once, and [run] registers
    every enabled task of the list: when [run] is started after an
    [add_task] with a valid schedule, its scan, if it gets through, leaves
    two jobs for the added task in the job table, both with the rule read
    from the schedule. *)
Theorem add_task_then_run_registers_twice (s s2 : state) (l : list pyval)
    (name command schedule_type schedule_time : string) (r : rule) :
  tasks s = PList l →
  grammar schedule_type schedule_time = Some r →
  schedule_enabled (add_task name command schedule_type schedule_time s).2
  = (inr tt, s2) →
  ∃ j1 between j2,
    jobs s2 = jobs s ++ [j1] ++ between ++ [j2]
    ∧ job_task j1 = List.length l ∧ job_task j2 = List.length l
    ∧ job_rule j1 = r ∧ job_rule j2 = r.
Proof.
  intros Ht Hg Hscan. set (task := new_task name command schedule_type schedule_time).
  assert (Hat : (l ++ [task]) !! List.length l = Some task)
    by (by apply list_lookup_middle).
  assert (Hreg : ∀ s0, tasks s0 = PList (l ++ [task]) →
            schedule_task (List.length l) s0
            = (inr tt, registered (List.length l) r s0)).
  { intros s0 Hs0. by eapply schedule_task_grammar. }
  rewrite (add_task_eq s l _ _ _ _ Ht) in Hscan. fold task in Hscan.
  rewrite (Hreg (added task l s) eq_refl) in Hscan. simpl in Hscan.
  unfold schedule_enabled in Hscan.
  rewrite (bind_ok (print LStarted) _ _ _ tt eq_refl) in Hscan.
  rewrite (bind_ok get _ _ _ _ eq_refl) in Hscan. cbn in Hscan.
  rewrite schedule_all_app in Hscan. unfold mbind at 1, M_bind at 1 in Hscan.
  destruct (schedule_all l 0 _) as [[e|[]] s1] eqn:Hl; [done|].
  apply schedule_all_shape in Hl as (between & _ & Ht1 & _ & Hc1 & Hj1 & _).
  cbn in Ht1, Hc1, Hj1. simpl in Hscan.
  unfold mbind at 1, M_bind at 1 in Hscan. unfold mbind at 1, M_bind at 1 in Hscan.
  rewrite (Hreg s1 Ht1) in Hscan.
  unfold mbind, M_bind, subscript, print, modify, mret, M_ret in Hscan.
  simpl in Hscan. injection Hscan as <-. eexists _, between, _. cbn.
  rewrite Hj1. split; [by rewrite <- !app_assoc|]. done.
Qed.

(** X14. The first [print] of the closure [job] is outside its [try]: when
    the first job that is due refers to a task without a name, the poll
    round raises [KeyError] out of the loop before any command is run, and
    the state is left as it was. *)
Theorem nameless_job_stops_the_loop (n : nat) (s : state) (l : list pyval)
    (k : nat) (ks : list nat) (j : Job) (d : list (string * pyval)) :
  due_jobs s = k :: ks → jobs s !! k = Some j →
  tasks s = PList l → l !! job_task j = Some (PDict d) →
  dict_get "name" d = None →
  poll (S n) s = (inl (KeyError "name"), s).
Proof.
  intros Hdue Hk Ht Hi Hname.
  assert (Hjob : job (job_task j) s = (inl (KeyError "name"), s)).
  { unfold job. rewrite (bind_ok _ _ _ _ _ (the_task_eq s l _ d Ht Hi)).
    rewrite (bind_ok now _ s s _ eq_refl). apply bind_err.
    unfold subscript. by rewrite Hname. }
  simpl. apply bind_err. unfold run_pending.
  rewrite (bind_ok get _ s s s eq_refl), Hdue. simpl. apply bind_err.
  unfold run_job. rewrite (bind_ok get _ s s s eq_refl), Hk.
  by apply bind_err.
Qed.

(** X15. [add_task] with a schedule the grammar reads returns normally:
    the new task is the last element of the task list, the storage file
    holds the dump of that list, and exactly one job was added, whose
    closure refers to the new task. *)
Theorem add_task_registers_new_task (s : state) (l : list pyval)
    (name command schedule_type schedule_time : string) (r : rule) :
  tasks s = PList l →
  grammar schedule_type schedule_time = Some r →
  let task := new_task name command schedule_type schedule_time in
  ∃ s' j,
    add_task name command schedule_type schedule_time s = (inr tt, s')
    ∧ tasks s' = PList (l ++ [task])
    ∧ fs s' !! config_file s = Some (json_dumps (PList (l ++ [task])))
    ∧ jobs s' = jobs s ++ [j]
    ∧ job_rule j = r
    ∧ task_at (job_task j) s' = Some task.
Proof.
  intros Ht Hg task. rewrite (add_task_eq s l _ _ _ _ Ht). fold task.
  assert (Hat : (l ++ [task]) !! List.length l = Some task)
    by (by apply list_lookup_middle).
  rewrite (schedule_task_grammar (added task l s) (l ++ [task]) _ _ _ _ r
             eq_refl Hat eq_refl eq_refl Hg).
  eexists _, _. split; [done|]. cbn.
  split; [done|]. split; [by apply lookup_insert_eq|].
  split; [done|]. split; [done|]. done.
Qed.

End TaskScheduler.

(** ** The properties on concrete worlds

    The platform is the JSON codec above, the calendar of [Clock] and one
    of the two shells. *)

Example daily_rule_next_day :
  Clock.isoformat 36000 = "2024-01-01T10:00:00"
  ∧ valid_rule "daily" "02:00" = Some (Daily 2 0)
  ∧ Clock.isoformat (next_fire (Daily 2 0) 36000) = "2024-01-02T02:00:00".
Proof. by vm_compute. Qed.

Example weekly_rule_from_monday :
  valid_rule "weekly" "sunday 04:00" = Some (Weekly Sunday 4 0)
  ∧ Clock.isoformat (next_fire (Weekly Sunday 4 0) 36000) = "2024-01-07T04:00:00".
Proof. by vm_compute. Qed.

Example second_start_schedules_examples :
  let s := (main Json.dumps Json.loads Clock.isoformat failing_shell 0
              (fresh {["tasks.json" := Json.dumps EXAMPLE_TASKS]})).2 in
  tasks s = EXAMPLE_TASKS
  ∧ List.map job_rule (jobs s)
    = [Daily 2 0; Daily 3 0; Interval 60; Weekly Sunday 4 0].
Proof. by vm_compute. Qed.

Lemma corrupt_storage_aborts_startup_witness :
  Json.loads "{not json" = None
  ∧ main Json.dumps Json.loads Clock.isoformat failing_shell 3
      (fresh {["tasks.json" := "{not json"]})
    = (inl JSONDecodeError, fresh {["tasks.json" := "{not json"]}).
Proof.
  assert (H : Json.loads "{not json" = None) by (vm_compute; reflexivity).
  split; [exact H|].
  destruct (corrupt_storage_aborts_startup Json.dumps Json.loads
              Clock.isoformat failing_shell (fresh ∅) "tasks.json"
              "{not json" 3 H) as (_ & _ & _ & Hmain).
  exact Hmain.
Defined.

Lemma next_run_after_now_witness :
  valid_rule "interval" "60" = Some (Interval 60)
  ∧ schedule_task 0 (set_jobs [] running)
    = (inr tt, registered 0 (Interval 60) (set_jobs [] running))
  ∧ ∀ t, t < next_fire (Interval 60) t.
Proof.
  assert (H : valid_rule "interval" "60" = Some (Interval 60))
    by (vm_compute; reflexivity).
  split; [exact H|].
  destruct (next_run_after_now (set_jobs [] running) [PDict disk_check] 0
              disk_check "interval" "60" (Interval 60)
              eq_refl eq_refl eq_refl eq_refl H) as (Hreg & _ & Hafter).
  split; [exact Hreg | exact Hafter].
Defined.

Lemma invalid_schedule_fails_at_registration_witness :
  is_schedule_type "daily" = true
  ∧ grammar "daily" "25:99" = None
  ∧ ∃ e s',
      add_task Json.dumps "Nightly" "true" "daily" "25:99"
        (set_tasks (PList []) (fresh ∅)) = (inl e, s')
      ∧ fs s' !! "tasks.json"
        = Some (Json.dumps (PList [new_task "Nightly" "true" "daily" "25:99"]))
      ∧ jobs s' = [].
Proof.
  assert (Hty : is_schedule_type "daily" = true) by reflexivity.
  assert (Hg : grammar "daily" "25:99" = None) by (vm_compute; reflexivity).
  split; [exact Hty|]. split; [exact Hg|].
  destruct (invalid_schedule_fails_at_registration Json.dumps
              (set_tasks (PList []) (fresh ∅)) [] "Nightly" "true" "daily"
              "25:99" eq_refl Hty Hg)
    as (e & s' & Hadd & _ & _ & Hfs & _ & _ & Hjobs).
  exists e, s'. split; [exact Hadd|]. split; [exact Hfs | exact Hjobs].
Defined.

Lemma add_task_then_load_witness :
  let task := new_task "Backup" "tar -czf b.tgz data" "daily" "02:00" in
  Json.loads (Json.dumps (PList [task])) = Some (PList [task])
  ∧ ∃ l',
      load_tasks Json.loads
        (add_task Json.dumps "Backup" "tar -czf b.tgz data" "daily" "02:00"
           (set_tasks (PList []) (fresh ∅))).2
      = (inr (PList l'),
         (add_task Json.dumps "Backup" "tar -czf b.tgz data" "daily" "02:00"
            (set_tasks (PList []) (fresh ∅))).2)
      ∧ last l' = Some task.
Proof.
  intros task.
  assert (H : Json.loads (Json.dumps (PList [task])) = Some (PList [task]))
    by (vm_compute; reflexivity).
  split; [exact H|].
  destruct (add_task_then_load Json.dumps Json.loads
              (set_tasks (PList []) (fresh ∅)) [] "Backup"
              "tar -czf b.tgz data" "daily" "02:00" eq_refl H)
    as (l' & Hload & Hlast & _).
  exists l'. split; [exact Hload | exact Hlast].
Defined.

(** C5, as stated, fails: a crash right after the storage file was opened
    leaves it empty, which is neither the previous content nor JSON. *)
Lemma save_tasks_crash_loses_previous_file :
  let f : gmap string string := {["tasks.json" := Json.dumps EXAMPLE_TASKS]} in
  let f' := crash_after 1 "tasks.json" (Json.dumps (PList [])) f in
  f' !! "tasks.json" ≠ f !! "tasks.json"
  ∧ f' !! "tasks.json" = Some EmptyString
  ∧ Json.loads EmptyString = None.
Proof. vm_compute. split; [discriminate|]. split; reflexivity. Qed.

(** C6, as stated, fails: on the first run the scheduler has loaded the
    empty list before the examples are written, and schedules nothing. *)
Lemma first_run_examples_not_scheduled :
  let s := (main Json.dumps Json.loads Clock.isoformat failing_shell 3
              (fresh ∅)).2 in
  tasks s ≠ EXAMPLE_TASKS
  ∧ jobs s = []
  ∧ fs s !! "tasks.json" = Some (Json.dumps EXAMPLE_TASKS).
Proof. vm_compute. split; [discriminate|]. split; reflexivity. Qed.

Lemma first_run_schedules_nothing_witness :
  fs (fresh ∅) !! "tasks.json" = None
  ∧ jobs (fresh ∅) = []
  ∧ ∃ s', main Json.dumps Json.loads Clock.isoformat no_shell 3 (fresh ∅)
          = (inr tt, s')
          ∧ tasks s' = PList [] ∧ jobs s' = [].
Proof.
  assert (Hfs : fs (fresh ∅) !! "tasks.json" = None)
    by (vm_compute; reflexivity).
  split; [exact Hfs|]. split; [reflexivity|].
  destruct (first_run_schedules_nothing Json.dumps Json.loads Clock.isoformat
              no_shell (fresh ∅) 3 Hfs eq_refl)
    as (s' & Hmain & _ & Htasks & Hjobs & _).
  exists s'. split; [exact Hmain|]. split; [exact Htasks | exact Hjobs].
Defined.

Lemma nonzero_exit_is_recorded_witness :
  result (failing_shell (PStr "df -h ~/server") (clock running) (fs running))
  = Completed "" "boom" 1
  ∧ 1 ≠ 0
  ∧ ∃ s',
      job Json.dumps Clock.isoformat failing_shell 0 running = (inr tt, s')
      ∧ clock s' = 36002
      ∧ item "last_run" <$> task_at 0 s'
        = Some (Some (PStr "2024-01-01T10:00:02"))
      ∧ fs s' !! "tasks.json" = Some (Json.dumps (tasks s'))
      ∧ out s' = [LRunning 36000 (PStr "Check Disk Space"); LOutput "";
                  LError "boom"].
Proof.
  assert (Hres : result (failing_shell (PStr "df -h ~/server") (clock running)
                           (fs running)) = Completed "" "boom" 1)
    by reflexivity.
  assert (Hrc : 1 ≠ 0) by discriminate.
  split; [exact Hres|]. split; [exact Hrc|].
  destruct (nonzero_exit_is_recorded Json.dumps Clock.isoformat failing_shell
              running [PDict disk_check] 0 disk_check
              (PStr "Check Disk Space") (PStr "df -h ~/server") "" "boom" 1
              eq_refl eq_refl eq_refl eq_refl Hres Hrc)
    as (s' & Hjob & Hclock & Htasks & Hfs & Hout & _).
  exists s'. split; [exact Hjob|]. split; [exact Hclock|].
  split; [unfold task_at; rewrite Htasks; vm_compute; reflexivity|].
  split; [|exact Hout].
  assert (Hcfg : config_file s' = "tasks.json").
  { pose proof (job_eq Json.dumps Clock.isoformat failing_shell running
                  [PDict disk_check] 0 disk_check (PStr "Check Disk Space")
                  eq_refl eq_refl eq_refl) as Heq.
    rewrite Hjob in Heq. injection Heq as ->. reflexivity. }
  rewrite <- Hcfg. exact Hfs.
Defined.

Lemma failures_stay_inside_the_firing_witness :
  jobs_ok running = true
  ∧ (∃ s', poll Json.dumps Clock.isoformat no_shell 5 running = (inr tt, s')
           ∧ List.length (jobs s') = 1%nat)
  ∧ ∃ s' t f pre post,
      poll Json.dumps Clock.isoformat no_shell 5 running = (inr tt, s')
      ∧ out s' = [] ++ pre
                   ++ job_log no_shell (PStr "Check Disk Space")
                        (Some (PStr "df -h ~/server")) t f
                   ++ post.
Proof.
  assert (Hok : jobs_ok running = true) by reflexivity.
  split; [exact Hok|].
  destruct (failures_stay_inside_the_firing Json.dumps Clock.isoformat no_shell
              running 5 Hok) as (_ & _ & (s' & Hpoll & Hlen) & _ & Hfires).
  split; [exists s'; split; [exact Hpoll | exact Hlen]|].
  destruct (Hfires 0%nat 4%nat running 0%nat
              {| job_task := 0; job_rule := Interval 60; next_run := 36000;
                 last_run := None |}
              disk_check (PStr "Check Disk Space")
              eq_refl eq_refl eq_refl eq_refl eq_refl)
    as (s2 & t & f & pre & post & Hpoll2 & _ & Hout).
  exists s2, t, f, pre, post. split; [exact Hpoll2 | exact Hout].
Defined.

Lemma firing_changes_last_run_only_witness :
  tasks running = PList [PDict disk_check]
  ∧ dict_get "name" disk_check = Some (PStr "Check Disk Space")
  ∧ ∃ s' l' d',
      job Json.dumps Clock.isoformat failing_shell 0 running = (inr tt, s')
      ∧ tasks s' = PList l'
      ∧ l' !! 0%nat = Some (PDict d')
      ∧ ∀ k, k ≠ "last_run" → dict_get k d' = dict_get k disk_check.
Proof.
  split; [reflexivity|]. split; [reflexivity|].
  destruct (firing_changes_last_run_only Json.dumps Clock.isoformat
              failing_shell running [PDict disk_check] 0 disk_check
              (PStr "Check Disk Space") eq_refl eq_refl eq_refl)
    as (s' & l' & d' & Hjob & Htasks & _ & _ & Hl' & Hd' & _).
  exists s', l', d'. split; [exact Hjob|]. split; [exact Htasks|].
  split; [exact Hl' | exact Hd'].
Defined.

Lemma missing_enabled_means_enabled_witness :
  dict_get "enabled" disk_check = None
  ∧ schedule_enabled
      (set_tasks (PList [PDict (dict_set "enabled" (PBool true) disk_check)])
         (set_jobs [] running))
    = (let '(r, s') := schedule_enabled (set_jobs [] running) in
       (r, set_tasks
             (PList [PDict (dict_set "enabled" (PBool true) disk_check)]) s')).
Proof.
  split; [reflexivity|].
  destruct (missing_enabled_means_enabled (set_jobs [] running)
              [PDict disk_check] 0 disk_check eq_refl eq_refl eq_refl)
    as (Hsame & _).
  exact Hsame.
Defined.

(** C10, as stated, fails: a loaded record whose enabled key is null is not
    an explicit enabled=false, and [run] passes over it all the same. *)
Lemma null_enabled_is_skipped :
  let d := dict_set "enabled" PNone disk_check in
  let s := set_tasks (PList [PDict d]) (fresh ∅) in
  Json.loads (Json.dumps (PList [PDict d])) = Some (tasks s)
  ∧ dict_get "enabled" d ≠ Some (PBool false)
  ∧ run Json.dumps Clock.isoformat failing_shell 0 s
    = (inr tt, set_out [LStarted] s)
  ∧ jobs (run Json.dumps Clock.isoformat failing_shell 0 s).2 = [].
Proof.
  vm_compute. split; [reflexivity|]. split; [discriminate|].
  split; reflexivity.
Qed.

Lemma startup_keeps_existing_file_witness :
  fs (fresh {["tasks.json" := "[]"]}) !! "tasks.json" = Some "[]"
  ∧ fs (main Json.dumps Json.loads Clock.isoformat failing_shell 0
          (fresh {["tasks.json" := "[]"]})).2
    = fs (fresh {["tasks.json" := "[]"]}).
Proof.
  assert (H : fs (fresh {["tasks.json" := "[]"]}) !! "tasks.json" = Some "[]")
    by (vm_compute; reflexivity).
  split; [exact H|].
  exact (proj1 (startup_keeps_existing_file Json.dumps Json.loads
                  Clock.isoformat failing_shell _ _ H)).
Defined.

Lemma unknown_schedule_type_is_ignored_witness :
  is_schedule_type "monthly" = false
  ∧ jobs (add_task Json.dumps "Report" "true" "monthly" "1"
            (set_tasks (PList []) (fresh ∅))).2 = []
  ∧ (add_task Json.dumps "Report" "true" "monthly" "1"
       (set_tasks (PList []) (fresh ∅))).1 = inr tt.
Proof.
  assert (H : is_schedule_type "monthly" = false) by reflexivity.
  split; [exact H|].
  destruct (unknown_schedule_type_is_ignored Json.dumps
              (set_tasks (PList []) (fresh ∅)) [] "Report" "true" "monthly"
              "1" eq_refl H) as (Hadd & Hjobs & _).
  rewrite Hadd. split; [exact Hjobs | reflexivity].
Defined.

Lemma json_object_storage_breaks_later_witness :
  let text := Json.dumps (PDict [("a", PInt 1)]) in
  Json.loads text = Some (PDict [("a", PInt 1)])
  ∧ (main Json.dumps Json.loads Clock.isoformat failing_shell 3
       (fresh {["tasks.json" := text]})).1
    = inl (AttributeError "get").
Proof.
  intros text.
  assert (Hfs : fs (fresh {["tasks.json" := text]}) !! "tasks.json" = Some text)
    by (vm_compute; reflexivity).
  assert (H : Json.loads text = Some (PDict [("a", PInt 1)]))
    by (vm_compute; reflexivity).
  split; [exact H|].
  destruct (json_object_storage_breaks_later Json.dumps Json.loads
              Clock.isoformat failing_shell _ text "a" (PInt 1) [] 3 Hfs H)
    as (_ & Hmain & _).
  rewrite Hmain. reflexivity.
Defined.

Lemma add_task_keeps_job_table_witness :
  jobs_ok running = true
  ∧ jobs_ok (add_task Json.dumps "Nightly" "true" "daily" "25:99" running).2
    = true.
Proof.
  assert (H : jobs_ok running = true) by reflexivity.
  split; [exact H|].
  exact (proj1 (add_task_keeps_job_table Json.dumps running [PDict disk_check]
                  "Nightly" "true" "daily" "25:99" eq_refl H)).
Defined.

Lemma scan_stops_at_malformed_task_witness :
  (∀ d, PInt 7 ≠ PDict d)
  ∧ (schedule_all ([PDict disk_check] ++ PInt 7 :: [PDict disk_check]) 0
       (set_jobs [] running)).2
    = (schedule_all [PDict disk_check] 0 (set_jobs [] running)).2.
Proof.
  assert (H : ∀ d, PInt 7 ≠ PDict d) by (intros d; discriminate).
  split; [exact H|].
  destruct (scan_stops_at_malformed_task [PDict disk_check]
              [PDict disk_check] (PInt 7) 0 (set_jobs [] running) H)
    as (_ & Hstate & _).
  exact Hstate.
Defined.

Lemma nameless_task_is_registered_before_run_raises_witness :
  dict_get "name" nameless = None
  ∧ grammar "interval" "5" = Some (Interval 5)
  ∧ schedule_all [PDict nameless] 0 (set_jobs [] (due_on nameless))
    = (inl (KeyError "name"),
       registered 0 (Interval 5) (set_jobs [] (due_on nameless))).
Proof.
  assert (Hg : grammar "interval" "5" = Some (Interval 5))
    by (vm_compute; reflexivity).
  split; [reflexivity|]. split; [exact Hg|].
  exact (nameless_task_is_registered_before_run_raises
           (set_jobs [] (due_on nameless)) [PDict nameless] [] 0 nameless
           "interval" "5" (Interval 5)
           eq_refl eq_refl eq_refl eq_refl eq_refl Hg eq_refl).
Defined.

Lemma unsuccessful_firing_writes_nothing_witness :
  dict_get "command" no_command = None
  ∧ ∃ s' e,
      job Json.dumps Clock.isoformat failing_shell 0 (due_on no_command)
      = (inr tt, s')
      ∧ tasks s' = tasks (due_on no_command)
      ∧ fs s' = ∅
      ∧ out s' = [LRunning 36000 (PStr "Ping")] ++ [LTaskError (PStr "Ping") e].
Proof.
  split; [reflexivity|].
  destruct (unsuccessful_firing_writes_nothing Json.dumps Clock.isoformat
              failing_shell (due_on no_command) [PDict no_command] 0
              no_command (PStr "Ping") eq_refl eq_refl eq_refl
              (or_introl eq_refl))
    as (s' & e & Hjob & Ht & _ & Hfs & Hout).
  exists s', e. split; [exact Hjob|]. split; [exact Ht|].
  split; [exact Hfs | exact Hout].
Defined.

Lemma save_then_load_witness :
  Json.loads (Json.dumps (tasks running)) = Some (tasks running)
  ∧ ((save_tasks Json.dumps;; load_tasks Json.loads) running).1
    = inr (tasks running).
Proof.
  assert (H : Json.loads (Json.dumps (tasks running)) = Some (tasks running))
    by (vm_compute; reflexivity).
  split; [exact H|].
  rewrite (proj1 (save_then_load Json.dumps Json.loads running H)).
  reflexivity.
Defined.

Lemma no_firing_before_due_witness :
  (∀ j, j ∈ jobs waiting → clock waiting + Z.of_nat 60 <= next_run j)
  ∧ poll Json.dumps Clock.isoformat failing_shell 60 waiting
    = (inr tt, set_clock 36060 waiting).
Proof.
  assert (H : ∀ j, j ∈ jobs waiting → clock waiting + Z.of_nat 60 <= next_run j).
  { intros j Hj. apply list_elem_of_singleton in Hj. subst j. simpl. lia. }
  split; [exact H|].
  exact (no_firing_before_due Json.dumps Clock.isoformat failing_shell 60
           waiting H).
Defined.

Lemma poll_changes_last_run_only_witness :
  jobs_ok running = true
  ∧ ∃ s', poll Json.dumps Clock.isoformat failing_shell 3 running = (inr tt, s')
          ∧ same_tasks (tasks running) (tasks s')
          ∧ job_task <$> jobs s' = [0%nat].
Proof.
  assert (H : jobs_ok running = true) by reflexivity.
  split; [exact H|].
  destruct (poll_changes_last_run_only Json.dumps Clock.isoformat
              failing_shell 3 running H) as (s' & Hpoll & _ & _ & Ht & Hj & _).
  exists s'. split; [exact Hpoll|]. split; [exact Ht | exact Hj].
Defined.

Lemma run_never_schedules_disabled_witness :
  jobs mixed = []
  ∧ Forall (refers_to_enabled
              (run Json.dumps Clock.isoformat failing_shell 3 mixed).2)
      (jobs (run Json.dumps Clock.isoformat failing_shell 3 mixed).2).
Proof.
  split; [reflexivity|].
  exact (run_never_schedules_disabled Json.dumps Clock.isoformat failing_shell
           3 mixed eq_refl).
Defined.

Lemma run_schedules_each_task_once_witness :
  jobs mixed = []
  ∧ NoDup (job_task <$>
             jobs (run Json.dumps Clock.isoformat failing_shell 3 mixed).2).
Proof.
  split; [reflexivity|].
  exact (run_schedules_each_task_once Json.dumps Clock.isoformat failing_shell
           3 mixed eq_refl).
Defined.

Lemma add_task_then_run_registers_twice_witness :
  let s := set_tasks (PList []) (fresh ∅) in
  let s1 := (add_task Json.dumps "Check" "df -h" "interval" "60" s).2 in
  grammar "interval" "60" = Some (Interval 60)
  ∧ schedule_enabled s1 = (inr tt, (schedule_enabled s1).2)
  ∧ ∃ j1 between j2,
      jobs (schedule_enabled s1).2 = [] ++ [j1] ++ between ++ [j2]
      ∧ job_task j1 = 0%nat ∧ job_task j2 = 0%nat
      ∧ job_rule j1 = Interval 60 ∧ job_rule j2 = Interval 60.
Proof.
  intros s s1.
  assert (Hg : grammar "interval" "60" = Some (Interval 60))
    by (vm_compute; reflexivity).
  assert (Hscan : schedule_enabled s1 = (inr tt, (schedule_enabled s1).2))
    by (vm_compute; reflexivity).
  split; [exact Hg|]. split; [exact Hscan|].
  exact (add_task_then_run_registers_twice Json.dumps s (schedule_enabled s1).2
           [] "Check" "df -h" "interval" "60" (Interval 60) eq_refl Hg Hscan).
Defined.

Lemma nameless_job_stops_the_loop_witness :
  due_jobs (due_on nameless) = [0%nat]
  ∧ dict_get "name" nameless = None
  ∧ poll Json.dumps Clock.isoformat failing_shell 4 (due_on nameless)
    = (inl (KeyError "name"), due_on nameless).
Proof.
  assert (Hdue : due_jobs (due_on nameless) = [0%nat]) by reflexivity.
  split; [exact Hdue|]. split; [reflexivity|].
  exact (nameless_job_stops_the_loop Json.dumps Clock.isoformat failing_shell 3
           (due_on nameless) [PDict nameless] 0 [] _ nameless
           Hdue eq_refl eq_refl eq_refl eq_refl).
Defined.

Lemma add_task_registers_new_task_witness :
  grammar "weekly" "Sunday 04:00" = Some (Weekly Sunday 4 0)
  ∧ ∃ s' j,
      add_task Json.dumps "Update" "pkg update" "weekly" "Sunday 04:00" running
      = (inr tt, s')
      ∧ jobs s' = jobs running ++ [j]
      ∧ job_rule j = Weekly Sunday 4 0
      ∧ task_at (job_task j) s'
        = Some (new_task "Update" "pkg update" "weekly" "Sunday 04:00").
Proof.
  assert (Hg : grammar "weekly" "Sunday 04:00" = Some (Weekly Sunday 4 0))
    by (vm_compute; reflexivity).
  split; [exact Hg|].
  destruct (add_task_registers_new_task Json.dumps running [PDict disk_check]
              "Update" "pkg update" "weekly" "Sunday 04:00" (Weekly Sunday 4 0)
              eq_refl Hg) as (s' & j & Hadd & _ & _ & Hjobs & Hrule & Hat).
  exists s', j. split; [exact Hadd|]. split; [exact Hjobs|].
  split; [exact Hrule | exact Hat].
Defined.
